(** * sc3: logical-time scheduler (clock.py) and OSC responders (responsedefs.py)

    A shallow embedding of the scheduler of [SystemClock] and of the
    dispatcher / responder classes, followed by the properties of the
    specification that were checked against it.

    Python objects are modelled as follows.
    - [float] is an IEEE 754 binary64 value ([spec_float] of the standard
      library, precision 53, emax 1024, round to nearest even);
    - [int] is [Z];
    - a raised exception is the [Raise] case of [result]; a method that
      mutates its receiver returns the new receiver next to its result, and
      the mutations done before a raise are kept;
    - a [dict] is a [gmap], a [list] is a [list]. *)

From Stdlib Require Import ZArith QArith Qabs Qpower Lia Ascii String.
From Stdlib Require Import Floats.SpecFloat.
From stdpp Require Import gmap strings list fin_maps.

Set Default Proof Using "Type".
Local Open Scope Z_scope.

(* ===================================================================== *)
(** * Python values, exceptions and floats *)
(* ===================================================================== *)

Module Py.

(** The exceptions that the modelled code raises or handles.
    [StopIteration] carries [len(inspect.trace())] as seen by a handler in
    [SystemClock.run]; [SystemExit] stands for the exceptions that derive
    from [BaseException] only. [OutOfFuel] is no Python exception: a loop of
    the model reached its bound before the loop of the program ended. *)
Inductive exn : Type :=
| StopIteration (trace_len : nat)
| TypeError
| KeyError
| ValueError
| IndexError
| OverflowError
| GenericException (msg : string)
| UserError (name : string)
| SystemExit
| OutOfFuel.

(** [isinstance(e, Exception)] *)
Definition is_Exception (e : exn) : bool :=
  match e with
  | SystemExit | OutOfFuel => false
  | _ => true
  end.

Inductive result (A : Type) : Type :=
| Ok (a : A)
| Raise (e : exn).
Arguments Ok {A} a.
Arguments Raise {A} e.

Definition bind {A B} (r : result A) (k : A -> result B) : result B :=
  match r with
  | Ok a => k a
  | Raise e => Raise e
  end.

(** ** binary64 *)

Definition float : Type := spec_float.
Definition prec : Z := 53.
Definition emax : Z := 1024.

Definition fadd : float -> float -> float := SFadd prec emax.
Definition fmul : float -> float -> float := SFmul prec emax.
Definition feqb : float -> float -> bool := SFeqb.
Definition fltb : float -> float -> bool := SFltb.
Definition fleb : float -> float -> bool := SFleb.

(** [math.inf] *)
Definition inf : float := S754_infinity false.

(** [float(z)] for a Python int: correctly rounded, [OverflowError] when
    the rounded value does not fit. *)
Definition float_of_int (z : Z) : result float :=
  match binary_normalize prec emax z 0 false with
  | S754_infinity _ => Raise OverflowError
  | f => Ok f
  end.

(** [int(x)] for a Python float: truncation toward zero. *)
Definition int_of_float (x : float) : result Z :=
  match x with
  | S754_zero _ => Ok 0
  | S754_infinity _ => Raise OverflowError
  | S754_nan => Raise ValueError
  | S754_finite s m e =>
      let a := match e with
               | Zneg p => Z.shiftr (Zpos m) (Zpos p)
               | _ => Z.shiftl (Zpos m) e
               end in
      Ok (if s then - a else a)
  end.

(** The double nearest to the decimal literal [num / den]. *)
Definition float_of_ratio (num den : positive) : float :=
  let '(mz, ez, lz) := SFdiv_core_binary prec emax (Zpos num) 0 (Zpos den) 0 in
  binary_round_aux prec emax false mz ez lz.

Definition fneg : float -> float := SFopp.

(** The number that a finite float denotes (0 for the others). *)
Definition float_to_Q (x : float) : Q :=
  match x with
  | S754_finite s m e => (inject_Z (if s then Zneg m else Zpos m) * 2 ^ e)%Q
  | _ => 0%Q
  end.

(** The values a task can return and an OSC message can carry. *)
Inductive pyval : Type :=
| VNone
| VBool (b : bool)
| VInt (z : Z)
| VFloat (f : float)
| VStr (s : string)
| VFunc (id : nat).

(** [isinstance(v, (int, float)) and not isinstance(v, bool)] *)
Definition is_number (v : pyval) : bool :=
  match v with
  | VInt _ | VFloat _ => true
  | _ => false
  end.

(** [x + v] for a float [x]: an int operand is first converted. *)
Definition float_add_val (x : float) (v : pyval) : result float :=
  match v with
  | VFloat d => Ok (fadd x d)
  | VInt z => bind (float_of_int z) (fun d => Ok (fadd x d))
  | VBool b => Ok (fadd x (if b then S754_finite false 4503599627370496 (-52)
                           else S754_zero false))
  | _ => Raise TypeError
  end.

End Py.
Import Py.

(* ===================================================================== *)
(** * heapq and queue.PriorityQueue, on (time, task) tuples *)
(* ===================================================================== *)

(** [queue.PriorityQueue] keeps its items in a list ordered as a binary
    heap by the functions of [heapq]; these are the ones of CPython's
    [_heapq], which exchange two items of the list at each step. *)

Module Heapq.

(** A scheduled task: a routine ([thr.TimeThread]) or a plain callable.
    Such objects define neither [__eq__] nor [__lt__]: [==] is identity
    and [<] raises [TypeError]. *)
Record Task : Type := { task_id : nat; is_TimeThread : bool }.

Definition item : Type := float * Task.

Definition task_is (a b : Task) : bool := Nat.eqb (task_id a) (task_id b).

(** [a < b] on the tuples [(secs, task)]: the first components that differ
    are compared with [<]. *)
Definition item_lt (a b : item) : result bool :=
  if feqb (fst a) (fst b) then
    if task_is (snd a) (snd b) then Ok false else Raise TypeError
  else Ok (fltb (fst a) (fst b)).

Definition swap (heap : list item) (i j : nat) : list item :=
  match heap !! i, heap !! j with
  | Some x, Some y => <[i := y]> (<[j := x]> heap)
  | _, _ => heap
  end.

(** [_siftdown(heap, startpos, pos)]; [fuel] bounds the [while]. *)
Fixpoint _siftdown (fuel : nat) (heap : list item) (startpos pos : nat)
  : list item * result unit :=
  match fuel with
  | O => (heap, Raise OutOfFuel)
  | S fuel' =>
      if bool_decide (startpos < pos)%nat then
        let parentpos := Nat.div2 (pos - 1) in
        match heap !! pos, heap !! parentpos with
        | Some newitem, Some parent =>
            match item_lt newitem parent with
            | Raise e => (heap, Raise e)
            | Ok false => (heap, Ok tt)
            | Ok true => _siftdown fuel' (swap heap pos parentpos) startpos parentpos
            end
        | _, _ => (heap, Raise IndexError)
        end
      else (heap, Ok tt)
  end.

(** The first loop of [_siftup]: move the smaller child up until a leaf. *)
Fixpoint _siftup_loop (fuel : nat) (heap : list item) (pos : nat)
  : list item * result nat :=
  match fuel with
  | O => (heap, Raise OutOfFuel)
  | S fuel' =>
      let endpos := length heap in
      if bool_decide (pos < Nat.div2 endpos)%nat then
        let childpos := (2 * pos + 1)%nat in
        let go (c : nat) := _siftup_loop fuel' (swap heap c pos) c in
        if bool_decide (childpos + 1 < endpos)%nat then
          match heap !! childpos, heap !! (childpos + 1)%nat with
          | Some a, Some b =>
              match item_lt a b with
              | Raise e => (heap, Raise e)
              | Ok true => go childpos
              | Ok false => go (childpos + 1)%nat
              end
          | _, _ => (heap, Raise IndexError)
          end
        else go childpos
      else (heap, Ok pos)
  end.

Definition _siftup (heap : list item) (pos : nat) : list item * result unit :=
  match _siftup_loop (length heap) heap pos with
  | (heap', Ok pos') => _siftdown (S pos') heap' pos pos'
  | (heap', Raise e) => (heap', Raise e)
  end.

(** [heappush]: append, then sift the new item down. *)
Definition heappush (heap : list item) (x : item) : list item * result unit :=
  _siftdown (S (length heap)) (heap ++ [x]) 0 (length heap).

(** [heappop]: the last item replaces the root and is sifted up. *)
Definition heappop (heap : list item) : list item * result item :=
  match last heap with
  | None => (heap, Raise IndexError)
  | Some lastelt =>
      match take (length heap - 1) heap with
      | [] => ([], Ok lastelt)
      | returnitem :: rest =>
          match _siftup (lastelt :: rest) 0 with
          | (heap', Ok _) => (heap', Ok returnitem)
          | (heap', Raise e) => (heap', Raise e)
          end
      end
  end.

Record PriorityQueue : Type :=
  { queue : list item; unfinished_tasks : nat }.

Definition empty (q : PriorityQueue) : bool :=
  match queue q with
  | [] => true
  | _ => false
  end.

(** [put]: the counter is only incremented when [heappush] returned. *)
Definition put (q : PriorityQueue) (x : item) : PriorityQueue * result unit :=
  match heappush (queue q) x with
  | (h, Ok _) => ({| queue := h; unfinished_tasks := S (unfinished_tasks q) |}, Ok tt)
  | (h, Raise e) => ({| queue := h; unfinished_tasks := unfinished_tasks q |}, Raise e)
  end.

Definition task_done (q : PriorityQueue) : PriorityQueue * result unit :=
  match unfinished_tasks q with
  | O => (q, Raise ValueError)
  | S n => ({| queue := queue q; unfinished_tasks := n |}, Ok tt)
  end.

(** [get] on a queue that is not empty (the scheduler tests [empty()]
    first; on an empty queue the call blocks, which is [None] here). *)
Definition get (q : PriorityQueue) : option (PriorityQueue * result item) :=
  match queue q with
  | [] => None
  | _ =>
      let '(h, r) := heappop (queue q) in
      Some ({| queue := h; unfinished_tasks := unfinished_tasks q |}, r)
  end.

End Heapq.
Import Heapq.

(* ===================================================================== *)
(** * clock.py: SystemClock *)
(* ===================================================================== *)

Module Clock.

(** [_SECONDS_TO_OSC = 4294967296.] and
    [_OSC_TO_SECONDS = 2.328306436538696e-10], read as Python reads the
    literals: the nearest double. *)
Definition _SECONDS_TO_OSC : float :=
  Eval vm_compute in float_of_ratio 4294967296 1.
Definition _OSC_TO_SECONDS : float :=
  Eval vm_compute in float_of_ratio 2328306436538696 (10 ^ 25).

(** [2097152.0], that is 2^21 seconds, a little more than 24 days. *)
Definition two_pow_21 : float := Eval vm_compute in float_of_ratio 2097152 1.

(** [-1e10], the [prev_time] of an empty queue. *)
Definition minus_1e10 : float :=
  Eval vm_compute in fneg (float_of_ratio 10000000000 1).

Record SystemClock : Type :=
  { _task_queue : PriorityQueue;
    _time_of_initialization : float;
    _elapsed_osc_offset : Z;
    (** [task.next_beat] of the [TimeThread] tasks, by task identity *)
    next_beat : gmap nat (option float);
    (** number of [_sched_cond.notify_all()] calls made so far *)
    notified : nat;
    (** what [traceback.print_exception] printed, oldest first *)
    reported : list exn }.

Definition set_queue (c : SystemClock) (q : PriorityQueue) : SystemClock :=
  {| _task_queue := q;
     _time_of_initialization := _time_of_initialization c;
     _elapsed_osc_offset := _elapsed_osc_offset c;
     next_beat := next_beat c;
     notified := notified c;
     reported := reported c |}.

Definition set_next_beat (c : SystemClock) (t : Task) (v : option float)
  : SystemClock :=
  {| _task_queue := _task_queue c;
     _time_of_initialization := _time_of_initialization c;
     _elapsed_osc_offset := _elapsed_osc_offset c;
     next_beat := if is_TimeThread t then <[task_id t := v]> (next_beat c)
                  else next_beat c;
     notified := notified c;
     reported := reported c |}.

Definition notify_all (c : SystemClock) : SystemClock :=
  {| _task_queue := _task_queue c;
     _time_of_initialization := _time_of_initialization c;
     _elapsed_osc_offset := _elapsed_osc_offset c;
     next_beat := next_beat c;
     notified := S (notified c);
     reported := reported c |}.

Definition report (c : SystemClock) (e : exn) : SystemClock :=
  {| _task_queue := _task_queue c;
     _time_of_initialization := _time_of_initialization c;
     _elapsed_osc_offset := _elapsed_osc_offset c;
     next_beat := next_beat c;
     notified := notified c;
     reported := reported c ++ [e] |}.

(** [self._task_queue.queue[0][0]] *)
Definition head_time (c : SystemClock) : option float :=
  match queue (_task_queue c) with
  | [] => None
  | (secs, _) :: _ => Some secs
  end.

(** ** Time conversions *)

Definition elapsed_time_to_osc (c : SystemClock) (elapsed : float) : result Z :=
  bind (int_of_float (fmul elapsed _SECONDS_TO_OSC))
       (fun n => Ok (n + _elapsed_osc_offset c)).

Definition osc_to_elapsed_time (c : SystemClock) (osctime : Z) : result float :=
  bind (float_of_int (osctime - _elapsed_osc_offset c))
       (fun x => Ok (fmul x _OSC_TO_SECONDS)).

(** ** Insertion *)

Definition _sched_add (secs : float) (task : Task) (c : SystemClock)
  : SystemClock * result unit :=
  let prev_time := match head_time c with
                   | None => minus_1e10
                   | Some t => t
                   end in
  match put (_task_queue c) (secs, task) with
  | (q, Raise e) => (set_queue c q, Raise e)
  | (q, Ok _) =>
      match task_done q with
      | (q', Raise e) => (set_queue c q', Raise e)
      | (q', Ok _) =>
          let c1 := set_next_beat (set_queue c q') task (Some secs) in
          match head_time c1 with
          | None => (c1, Raise IndexError)
          | Some t =>
              if negb (feqb t prev_time) then (notify_all c1, Ok tt)
              else (c1, Ok tt)
          end
      end
  end.

(** [SystemClock.sched(delta, item)]; [elapsed] is what
    [Main.elapsed_time()] returns at the call. *)
Definition sched (elapsed : float) (delta : pyval) (item : Task)
    (c : SystemClock) : SystemClock * result unit :=
  match float_add_val elapsed delta with
  | Raise e => (c, Raise e)
  | Ok seconds =>
      if feqb seconds inf then (c, Ok tt)
      else _sched_add seconds item c
  end.

Definition sched_abs (time : float) (item : Task) (c : SystemClock)
  : SystemClock * result unit :=
  if feqb time inf then
    (c, Raise (GenericException "sched_abs won't schedule to infinity"))
  else _sched_add time item c.

(** ** The scheduler thread *)

Section Run.

(** Everything a task can touch besides the clock, and the effect of
    [getattr(task, 'next', task)()] on it: the value returned or the
    exception raised. *)
Variable World : Type.
Variable call_task : Task -> World -> World * result pyval.

(** The inner [try]: call the task and re-schedule it on a number; its
    [except StopIteration] clause re-raises when the trace is deep. *)
Definition resume (sched_time : float) (task : Task)
    (c : SystemClock) (w : World) : SystemClock * World * result unit :=
  let '(c1, w1, r) :=
    match call_task task w with
    | (w', Raise e) => (c, w', Raise e)
    | (w', Ok delta) =>
        if is_number delta then
          match float_add_val sched_time delta with
          | Raise e => (c, w', Raise e)
          | Ok time =>
              let '(c', r) := _sched_add time task c in (c', w', r)
          end
        else (c, w', Ok tt)
    end in
  match r with
  | Raise (StopIteration n) =>
      if bool_decide (2 < n)%nat then (c1, w1, Raise (StopIteration n))
      else (c1, w1, Ok tt)
  | _ => (c1, w1, r)
  end.

(** The outer [try]: [except Exception] prints the traceback. *)
Definition execute (sched_time : float) (task : Task)
    (c : SystemClock) (w : World) : SystemClock * World * result unit :=
  match resume sched_time task c w with
  | (c1, w1, Raise e) =>
      if is_Exception e then (report c1 e, w1, Ok tt)
      else (c1, w1, Raise e)
  | ok => ok
  end.

(** The condition of the last [while] of [run]. *)
Definition ready (now : float) (c : SystemClock) : bool :=
  match head_time c with
  | None => false
  | Some secs => fleb (fadd (_time_of_initialization c) secs) now
  end.

Inductive status : Type :=
| Waiting              (** the [while] ended: back to the waits *)
| Died (e : exn)       (** an exception left [run] *)
| Running.             (** [fuel] iterations were not enough *)

(** One iteration of the body of that loop. *)
Definition perform_one (c : SystemClock) (w : World)
  : SystemClock * World * result unit :=
  match get (_task_queue c) with
  | None => (c, w, Ok tt)
  | Some (q, Raise e) => (set_queue c q, w, Raise e)
  | Some (q, Ok (sched_time, task)) =>
      execute sched_time task (set_next_beat (set_queue c q) task None) w
  end.

(** "perform all events that are ready" *)
Fixpoint perform_ready (fuel : nat) (now : float)
    (c : SystemClock) (w : World) : SystemClock * World * status :=
  match fuel with
  | O => (c, w, Running)
  | S fuel' =>
      if ready now c then
        match perform_one c w with
        | (c', w', Ok _) => perform_ready fuel' now c' w'
        | (c', w', Raise e) => (c', w', Died e)
        end
      else (c, w, Waiting)
  end.

End Run.

End Clock.
Import Clock.

(* ===================================================================== *)
(** * clock.py: the other methods of the clocks *)
(* ===================================================================== *)

Module ClockRest.


(** The loop of [SystemClock.clear]: [get()] until [empty()]. *)
Fixpoint clear_loop (fuel : nat) (q : PriorityQueue) : PriorityQueue * result unit :=
  match fuel with
  | O => (q, Raise OutOfFuel)
  | S fuel' =>
      if empty q then (q, Ok tt)
      else match get q with
           | None => (q, Ok tt)
           | Some (q', Ok _) => clear_loop fuel' q'
           | Some (q', Raise e) => (q', Raise e)
           end
  end.

(** [SystemClock.clear()]: the waiters are notified after the loop. *)
Definition clear (c : SystemClock) : SystemClock * result unit :=
  match clear_loop (S (length (queue (_task_queue c)))) (_task_queue c) with
  | (q, Ok _) => (notify_all (set_queue c q), Ok tt)
  | (q, Raise e) => (set_queue c q, Raise e)
  end.



(** ** Predicates on the list of the queue *)

(** The heap order of [heapq] on scheduled times: no entry is earlier than
    the entry at its parent position. *)
Definition time_le (a b : item) : Prop := fltb (fst b) (fst a) = false.

Definition heap_ordered (heap : list item) : Prop :=
  forall (i : nat) (x p : item),
    (0 < i)%nat -> heap !! i = Some x -> heap !! Nat.div2 (i - 1) = Some p ->
    time_le p x.

Definition heap_orderedb (heap : list item) : bool :=
  forallb (fun i => match heap !! i, heap !! Nat.div2 (i - 1) with
                    | Some x, Some p => negb (fltb (fst x) (fst p))
                    | _, _ => true
                    end)
          (seq 1 (length heap - 1)).

Definition no_nan (heap : list item) : Prop :=
  Forall (fun x => fst x <> S754_nan) heap.

(** The heap order but for the entry at [pos], which [_siftdown] is
    moving towards the root: its children are in order with its parent. *)
Definition hole_ok (h : list item) (pos : nat) : Prop :=
  (forall i x p, (0 < i)%nat -> i <> pos -> Nat.div2 (i - 1) <> pos ->
      h !! i = Some x -> h !! Nat.div2 (i - 1) = Some p -> time_le p x)
  /\ (forall k x g, (0 < pos)%nat -> (0 < k)%nat -> Nat.div2 (k - 1) = pos ->
      h !! k = Some x -> h !! Nat.div2 (pos - 1) = Some g -> time_le g x).

(** The entry at [pos] is in order with its children. *)
Definition below_ok (h : list item) (pos : nat) : Prop :=
  forall k x y, (0 < k)%nat -> Nat.div2 (k - 1) = pos ->
    h !! k = Some x -> h !! pos = Some y -> time_le y x.



End ClockRest.
Import ClockRest.

(* ===================================================================== *)
(** * responsedefs.py: matchers, dispatchers and responders *)
(* ===================================================================== *)

Module ResponseDefs.

(** [NetAddr]: the sender of a message, or the [src_id] of a responder. *)
Record NetAddr : Type := { addr : string; port : option Z }.

Definition port_eqb (a b : option Z) : bool :=
  match a, b with
  | Some x, Some y => Z.eqb x y
  | None, None => true
  | _, _ => false
  end.

(** An int and a float are equal when they denote the same number. *)
Definition float_is_int (f : float) (z : Z) : bool :=
  match f with
  | S754_zero _ => Z.eqb z 0
  | S754_finite s m (Zneg p) =>
      Z.eqb (Z.land (Zpos m) (Z.ones (Zpos p))) 0
      && Z.eqb z (if s then - Z.shiftr (Zpos m) (Zpos p) else Z.shiftr (Zpos m) (Zpos p))
  | S754_finite s m e =>
      Z.eqb z (if s then - Z.shiftl (Zpos m) e else Z.shiftl (Zpos m) e)
  | _ => false
  end.

(** [a == b] on the values of a message and of a template; a function is
    equal to itself only. *)
Definition py_eqb (a b : pyval) : bool :=
  let num (v : pyval) : option (Z + float) :=
    match v with
    | VBool b => Some (inl (if b then 1 else 0))
    | VInt z => Some (inl z)
    | VFloat f => Some (inr f)
    | _ => None
    end in
  match num a, num b with
  | Some (inl x), Some (inl y) => Z.eqb x y
  | Some (inl x), Some (inr g) => float_is_int g x
  | Some (inr f), Some (inl y) => float_is_int f y
  | Some (inr f), Some (inr g) => feqb f g
  | None, None =>
      match a, b with
      | VNone, VNone => true
      | VStr s, VStr t => String.eqb s t
      | VFunc i, VFunc j => Nat.eqb i j
      | _, _ => false
      end
  | _, _ => false
  end.

(** What a user function does when it is called, besides being recorded
    in [calls]: operations on responders (by identity). *)
Inductive action : Type :=
| DoFree (h : nat)
| DoDisable (h : nat)
| DoEnable (h : nat).

(** A user function object. *)
Record callback : Type := { cb_id : nat; cb_body : list action }.

(** What [wrap_func] returns: the function itself or matcher objects
    around it; a matcher object has its own identity [oid]. *)
Inductive wfunc : Type :=
| WFunc (f : option callback)
| OSCArgsMatcher (oid : nat) (arg_template : list pyval) (f : option callback)
| OscFuncAddrMessageMatcher (oid : nat) (a : NetAddr) (inner : wfunc)
| OscFuncRecvPortMessageMatcher (oid : nat) (p : Z) (inner : wfunc)
| OscFuncBothMessageMatcher (oid : nat) (a : NetAddr) (p : Z) (inner : wfunc).

(** [==] between such objects: none defines [__eq__], so identity. *)
Definition wfunc_is (x y : wfunc) : bool :=
  match x, y with
  | WFunc None, WFunc None => true
  | WFunc (Some f), WFunc (Some g) => Nat.eqb (cb_id f) (cb_id g)
  | OSCArgsMatcher i _ _, OSCArgsMatcher j _ _
  | OscFuncAddrMessageMatcher i _ _, OscFuncAddrMessageMatcher j _ _
  | OscFuncRecvPortMessageMatcher i _ _, OscFuncRecvPortMessageMatcher j _ _
  | OscFuncBothMessageMatcher i _ _ _, OscFuncBothMessageMatcher j _ _ _ => Nat.eqb i j
  | _, _ => false
  end.

Inductive disp_ref : Type :=
| default_dispatcher
| default_matching_dispatcher.

Global Instance disp_ref_eq_dec : EqDecision disp_ref.
Proof. solve_decision. Defined.

(** [AbstractWrappingDispatcher] *)
Record Dispatcher : Type :=
  { registered : bool;
    active : gmap string (list wfunc);
    wrapped_funcs : gmap nat wfunc }.

(** [OscFunc] *)
Record OscFunc : Type :=
  { path : string;
    src_id : option NetAddr;
    recv_port : option Z;
    arg_template : option (list pyval);
    _func : option callback;
    _permanent : bool;
    enabled : bool;
    dispatcher : disp_ref }.

(** The objects of the module and of its collaborators. *)
Record State : Type :=
  { proxies : gmap nat OscFunc;
    exact : Dispatcher;
    matching_d : Dispatcher;
    _all_func_proxies : gset nat;
    (** [CmdPeriod]: the responders whose [__on_cmd_period] is subscribed *)
    cmd_period : list nat;
    (** [NotificationCenter]: registrations [(func_proxy, 'function', d)] *)
    notifications : list (nat * disp_ref);
    (** [main]: the dispatchers attached as OSC receive functions *)
    osc_recv_funcs : list disp_ref;
    udp_ports : list Z;
    next_oid : nat;
    (** the calls of user functions so far: function and message *)
    calls : list (nat * list pyval) }.

Definition M (A : Type) : Type := State -> State * result A.
Definition ret {A} (a : A) : M A := fun s => (s, Ok a).
Definition raise {A} (e : exn) : M A := fun s => (s, Raise e).
Definition mbind {A B} (m : M A) (k : A -> M B) : M B :=
  fun s => match m s with
           | (s', Ok a) => k a s'
           | (s', Raise e) => (s', Raise e)
           end.
Definition gets {A} (f : State -> A) : M A := fun s => (s, Ok (f s)).
Definition modify (f : State -> State) : M unit := fun s => (f s, Ok tt).

Notation "'do' x <- m ; k" := (mbind m (fun x => k))
  (at level 10, x name, m at level 100, k at level 200).
Notation "m ;; k" := (mbind m (fun _ => k))
  (at level 100, k at level 200, right associativity).

Fixpoint for_each {A} (l : list A) (body : A -> M unit) : M unit :=
  match l with
  | [] => ret tt
  | x :: l' => body x ;; for_each l' body
  end.

(** ** Field updates *)

Definition set_proxies (f : gmap nat OscFunc -> gmap nat OscFunc) (s : State) : State :=
  {| proxies := f (proxies s); exact := exact s; matching_d := matching_d s;
     _all_func_proxies := _all_func_proxies s; cmd_period := cmd_period s;
     notifications := notifications s; osc_recv_funcs := osc_recv_funcs s;
     udp_ports := udp_ports s; next_oid := next_oid s; calls := calls s |}.

Definition get_disp (d : disp_ref) (s : State) : Dispatcher :=
  match d with
  | default_dispatcher => exact s
  | default_matching_dispatcher => matching_d s
  end.

Definition set_disp (d : disp_ref) (f : Dispatcher -> Dispatcher) (s : State) : State :=
  {| proxies := proxies s;
     exact := match d with default_dispatcher => f (exact s) | _ => exact s end;
     matching_d := match d with default_matching_dispatcher => f (matching_d s)
                              | _ => matching_d s end;
     _all_func_proxies := _all_func_proxies s; cmd_period := cmd_period s;
     notifications := notifications s; osc_recv_funcs := osc_recv_funcs s;
     udp_ports := udp_ports s; next_oid := next_oid s; calls := calls s |}.

Definition set_all (f : gset nat -> gset nat) (s : State) : State :=
  {| proxies := proxies s; exact := exact s; matching_d := matching_d s;
     _all_func_proxies := f (_all_func_proxies s); cmd_period := cmd_period s;
     notifications := notifications s; osc_recv_funcs := osc_recv_funcs s;
     udp_ports := udp_ports s; next_oid := next_oid s; calls := calls s |}.

Definition set_cmd_period (f : list nat -> list nat) (s : State) : State :=
  {| proxies := proxies s; exact := exact s; matching_d := matching_d s;
     _all_func_proxies := _all_func_proxies s; cmd_period := f (cmd_period s);
     notifications := notifications s; osc_recv_funcs := osc_recv_funcs s;
     udp_ports := udp_ports s; next_oid := next_oid s; calls := calls s |}.

Definition set_notifications
    (f : list (nat * disp_ref) -> list (nat * disp_ref)) (s : State) : State :=
  {| proxies := proxies s; exact := exact s; matching_d := matching_d s;
     _all_func_proxies := _all_func_proxies s; cmd_period := cmd_period s;
     notifications := f (notifications s); osc_recv_funcs := osc_recv_funcs s;
     udp_ports := udp_ports s; next_oid := next_oid s; calls := calls s |}.

Definition set_osc_recv_funcs (f : list disp_ref -> list disp_ref) (s : State) : State :=
  {| proxies := proxies s; exact := exact s; matching_d := matching_d s;
     _all_func_proxies := _all_func_proxies s; cmd_period := cmd_period s;
     notifications := notifications s; osc_recv_funcs := f (osc_recv_funcs s);
     udp_ports := udp_ports s; next_oid := next_oid s; calls := calls s |}.

Definition set_udp_ports (f : list Z -> list Z) (s : State) : State :=
  {| proxies := proxies s; exact := exact s; matching_d := matching_d s;
     _all_func_proxies := _all_func_proxies s; cmd_period := cmd_period s;
     notifications := notifications s; osc_recv_funcs := osc_recv_funcs s;
     udp_ports := f (udp_ports s); next_oid := next_oid s; calls := calls s |}.

Definition set_next_oid (n : nat) (s : State) : State :=
  {| proxies := proxies s; exact := exact s; matching_d := matching_d s;
     _all_func_proxies := _all_func_proxies s; cmd_period := cmd_period s;
     notifications := notifications s; osc_recv_funcs := osc_recv_funcs s;
     udp_ports := udp_ports s; next_oid := n; calls := calls s |}.

Definition log_call (c : nat * list pyval) (s : State) : State :=
  {| proxies := proxies s; exact := exact s; matching_d := matching_d s;
     _all_func_proxies := _all_func_proxies s; cmd_period := cmd_period s;
     notifications := notifications s; osc_recv_funcs := osc_recv_funcs s;
     udp_ports := udp_ports s; next_oid := next_oid s; calls := calls s ++ [c] |}.


Definition set_registered (b : bool) (d : Dispatcher) : Dispatcher :=
  {| registered := b; active := active d; wrapped_funcs := wrapped_funcs d |}.
Definition set_active (f : gmap string (list wfunc) -> gmap string (list wfunc))
    (d : Dispatcher) : Dispatcher :=
  {| registered := registered d; active := f (active d);
     wrapped_funcs := wrapped_funcs d |}.
Definition set_wrapped_funcs (f : gmap nat wfunc -> gmap nat wfunc)
    (d : Dispatcher) : Dispatcher :=
  {| registered := registered d; active := active d;
     wrapped_funcs := f (wrapped_funcs d) |}.

Definition set_enabled (b : bool) (p : OscFunc) : OscFunc :=
  {| path := path p; src_id := src_id p; recv_port := recv_port p;
     arg_template := arg_template p; _func := _func p;
     _permanent := _permanent p; enabled := b; dispatcher := dispatcher p |}.

(** The responder object [h]; a name that denotes no object cannot occur
    in a Python program, it is an [UserError] here. *)
Definition proxy (h : nat) : M OscFunc :=
  fun s => match proxies s !! h with
           | Some p => (s, Ok p)
           | None => (s, Raise (UserError "no such object"))
           end.

(** ** Collaborators that are not part of these files *)

Definition add_once {A} `{EqDecision A} (x : A) (l : list A) : list A :=
  if bool_decide (x ∈ l) then l else l ++ [x].
Definition drop_all {A} `{EqDecision A} (x : A) (l : list A) : list A :=
  filter (fun y => y ≠ x) l.

(** Modelled from the spec: the global reset signal ([sac.CmdPeriod]) is a
    broadcast source with subscribe and unsubscribe; subscribing twice or
    unsubscribing an absent callback changes nothing. *)
Definition CmdPeriod_add (h : nat) : M unit := modify (set_cmd_period (add_once h)).
Definition CmdPeriod_remove (h : nat) : M unit := modify (set_cmd_period (drop_all h)).

(** Modelled from the spec: [mdl.NotificationCenter] keeps the listeners
    of the ['function'] message of a responder. *)
Definition NotificationCenter_register (h : nat) (d : disp_ref) : M unit :=
  modify (set_notifications (add_once (h, d))).
Definition NotificationCenter_unregister (h : nat) (d : disp_ref) : M unit :=
  modify (set_notifications (drop_all (h, d))).

(** Modelled from the spec: the upstream message source ([_libsc3.main])
    supports attach and detach of a dispatch callback. *)
Definition add_osc_recv_func (d : disp_ref) : M unit :=
  modify (set_osc_recv_funcs (add_once d)).
Definition remove_osc_recv_func (d : disp_ref) : M unit :=
  modify (set_osc_recv_funcs (drop_all d)).
Definition open_udp_port (p : Z) : M unit := modify (set_udp_ports (add_once p)).

(** ** OSCMessageDispatcher *)

Definition fresh : M nat :=
  fun s => (set_next_oid (S (next_oid s)) s, Ok (next_oid s)).

Definition wrap_func (h : nat) : M wfunc :=
  do p <- proxy h;
  do func <- match arg_template p with
             | Some t => do o <- fresh; ret (OSCArgsMatcher o t (_func p))
             | None => ret (WFunc (_func p))
             end;
  match src_id p, recv_port p with
  | Some a, Some r => do o <- fresh; ret (OscFuncBothMessageMatcher o a r func)
  | Some a, None => do o <- fresh; ret (OscFuncAddrMessageMatcher o a func)
  | None, Some r => do o <- fresh; ret (OscFuncRecvPortMessageMatcher o r func)
  | None, None => ret func
  end.

Definition get_keys_for_func_proxy (h : nat) : M (list string) :=
  do p <- proxy h; ret [path p].

Definition register (d : disp_ref) : M unit :=
  add_osc_recv_func d ;; modify (set_disp d (set_registered true)).

Definition unregister (d : disp_ref) : M unit :=
  remove_osc_recv_func d ;; modify (set_disp d (set_registered false)).

(** ** AbstractWrappingDispatcher *)

Definition add (d : disp_ref) (h : nat) : M unit :=
  NotificationCenter_register h d ;;
  do func <- wrap_func h;
  modify (set_disp d (set_wrapped_funcs <[h := func]>)) ;;
  do keys <- get_keys_for_func_proxy h;
  for_each keys (fun key =>
    modify (set_disp d (set_active (fun a =>
      match a !! key with
      | Some l => <[key := l ++ [func]]> a
      | None => <[key := [func]]> a
      end)))) ;;
  do r <- gets (fun s => registered (get_disp d s));
  if negb r then register d else ret tt.

(** [l.remove(x)]: the first item equal to [x] goes, [ValueError] if none. *)
Fixpoint list_remove_first (x : wfunc) (l : list wfunc) : result (list wfunc) :=
  match l with
  | [] => Raise ValueError
  | y :: l' =>
      if wfunc_is y x then Ok l'
      else Py.bind (list_remove_first x l') (fun r => Ok (y :: r))
  end.

Definition remove (d : disp_ref) (h : nat) : M unit :=
  NotificationCenter_unregister h d ;;
  do keys <- get_keys_for_func_proxy h;
  do func <- (fun s => match wrapped_funcs (get_disp d s) !! h with
                       | Some f => (s, Ok f)
                       | None => (s, Raise KeyError)
                       end);
  for_each keys (fun key => fun s =>
    match active (get_disp d s) !! key with
    | None => (s, Raise KeyError)
    | Some l =>
        match list_remove_first func l with
        | Raise e => (s, Raise e)
        | Ok l' => (set_disp d (set_active <[key := l']>) s, Ok tt)
        end
    end) ;;
  modify (set_disp d (set_wrapped_funcs (delete h))) ;;
  do n <- gets (fun s => size (active (get_disp d s)));
  if Nat.eqb n 0 then unregister d else ret tt.

(** ** AbstractResponderFunc *)

Definition enable (h : nat) : M unit :=
  do p <- proxy h;
  if negb (enabled p) then
    (if negb (_permanent p) then CmdPeriod_add h else ret tt) ;;
    add (dispatcher p) h ;;
    modify (set_proxies (alter (set_enabled true) h)) ;;
    modify (set_all (fun a => {[h]} ∪ a))
  else ret tt.

Definition disable (h : nat) : M unit :=
  do p <- proxy h;
  (if negb (_permanent p) then CmdPeriod_remove h else ret tt) ;;
  remove (dispatcher p) h ;;
  modify (set_proxies (alter (set_enabled false) h)).

Definition free (h : nat) : M unit :=
  do isin <- gets (fun s => bool_decide (h ∈ _all_func_proxies s));
  (if isin then modify (set_all (fun a => a ∖ {[h]})) else ret tt) ;;
  do p <- proxy h;
  if enabled p then disable h else ret tt.

(** ** Calling the wrapped functions *)

Definition run_action (a : action) : M unit :=
  match a with
  | DoFree h => free h
  | DoDisable h => disable h
  | DoEnable h => enable h
  end.

(** Modelled from the spec: [fn.value(func, msg, time, addr, recv_port)]
    calls [func] with these arguments when it is callable and does
    nothing for [None]. *)
Definition value_callback (f : option callback) (msg : list pyval) : M unit :=
  match f with
  | None => ret tt
  | Some c => modify (log_call (cb_id c, msg)) ;; for_each (cb_body c) run_action
  end.

(** The loop of [OSCArgsMatcher.__call__] over [enumerate(arg_template)]:
    [Ok false] is its [return], [args] is [msg[1:]] from position [i] on. *)
Fixpoint template_pass (template args : list pyval) : result bool :=
  match template with
  | [] => Ok true
  | VNone :: t' => template_pass t' (tail args)
  | item :: t' =>
      match args with
      | [] => Raise IndexError
      | a :: args' =>
          if negb (py_eqb item a) then Ok false else template_pass t' args'
      end
  end.

Definition OSCArgsMatcher_call (template : list pyval) (f : option callback)
    (msg : list pyval) : M unit :=
  match template_pass template (tail msg) with
  | Raise e => raise e
  | Ok false => ret tt
  | Ok true => value_callback f msg
  end.

Definition addr_matches (mine theirs : NetAddr) : bool :=
  String.eqb (addr mine) (addr theirs)
  && match port mine with
     | None => true
     | Some _ => port_eqb (port mine) (port theirs)
     end.

(** [fn.value] on what [wrap_func] built: the [__call__] of each matcher. *)
Fixpoint value (w : wfunc) (msg : list pyval) (time : float)
    (sender : NetAddr) (rport : Z) : M unit :=
  match w with
  | WFunc f => value_callback f msg
  | OSCArgsMatcher _ t f => OSCArgsMatcher_call t f msg
  | OscFuncAddrMessageMatcher _ a inner =>
      if addr_matches a sender then value inner msg time sender rport else ret tt
  | OscFuncRecvPortMessageMatcher _ p inner =>
      if Z.eqb p rport then value inner msg time sender rport else ret tt
  | OscFuncBothMessageMatcher _ a p inner =>
      if addr_matches a sender && Z.eqb p rport
      then value inner msg time sender rport else ret tt
  end.

(** [for func in self.active[key]]: the iterator keeps a position in the
    list object, which [remove] and [add] mutate in place; no code path
    rebinds or deletes an existing key of [active]. *)
Fixpoint dispatch_loop (fuel : nat) (d : disp_ref) (key : string) (i : nat)
    (msg : list pyval) (time : float) (sender : NetAddr) (rport : Z) : M unit :=
  match fuel with
  | O => raise OutOfFuel
  | S fuel' =>
      do l <- gets (fun s => default [] (active (get_disp d s) !! key));
      match l !! i with
      | None => ret tt
      | Some func =>
          value func msg time sender rport ;;
          dispatch_loop fuel' d key (S i) msg time sender rport
      end
  end.

(** [OSCMessageDispatcher.__call__]. The loop ends: a call adds at most
    one item per responder that it enables. *)
Definition dispatch (d : disp_ref) (msg : list pyval) (time : float)
    (sender : NetAddr) (rport : Z) : M unit :=
  match msg with
  | [] => raise IndexError
  | VStr key :: _ =>
      do a <- gets (fun s => active (get_disp d s));
      match a !! key with
      | None => ret tt
      | Some l =>
          do n <- gets (fun s => size (proxies s));
          dispatch_loop (S (length l + n)) d key 0 msg time sender rport
      end
  | _ => ret tt
  end.

(** ** Calls: binding arguments to parameters *)

(** A [def]: the parameters that can be passed by position (the first
    [required] of them have no default) and the keyword-only ones, which
    all have defaults here. [self] is left out. *)
Record signature : Type :=
  { positional : list string; required : nat; keyword_only : list string }.

Fixpoint bind_keywords {V} (sig : signature) (kwargs : list (string * V))
    (env : gmap string V) : result (gmap string V) :=
  match kwargs with
  | [] => Ok env
  | (k, v) :: rest =>
      if bool_decide (k ∈ positional sig ++ keyword_only sig) then
        match env !! k with
        | Some _ => Raise TypeError
        | None => bind_keywords sig rest (<[k := v]> env)
        end
      else Raise TypeError
  end.

(** What Python does before the body of a function runs; every failure is
    a [TypeError]: too many positional arguments, an unexpected keyword,
    two values for one parameter, a required parameter without value. *)
Definition bind_args {V} (sig : signature) (args : list V)
    (kwargs : list (string * V)) : result (gmap string V) :=
  if bool_decide (length (positional sig) < length args)%nat then Raise TypeError
  else
    Py.bind (bind_keywords sig kwargs (list_to_map (zip (positional sig) args)))
      (fun env =>
         if forallb (fun k => bool_decide (is_Some (env !! k)))
              (take (required sig) (positional sig))
         then Ok env else Raise TypeError).

(** ** OscFunc *)

(** The arguments of the constructors. *)
Inductive argval : Type :=
| ANone
| AFunc (f : callback)
| AStr (s : string)
| AAddr (a : NetAddr)
| AInt (z : Z)
| AList (l : list pyval)
| ADispatcher (d : disp_ref).

(** [def __init__(self, func, path, src_id=None, *, recv_port=None,
                  arg_template=None, dispatcher=None)] *)
Definition __init__signature : signature :=
  {| positional := ["func"; "path"; "src_id"];
     required := 2;
     keyword_only := ["recv_port"; "arg_template"; "dispatcher"] |}.

(** The body of [__init__] on a new object [h]. Arguments of a kind that
    the docstring does not allow are rejected with [TypeError]. *)
Definition __init__body (h : nat) (env : gmap string argval) : M unit :=
  do func <- match env !! "func" with
             | Some (AFunc f) => ret (Some f)
             | Some ANone => ret None
             | _ => raise TypeError
             end;
  do path0 <- match env !! "path" with
              | Some (AStr EmptyString) => raise IndexError
              | Some (AStr p) => ret p
              | _ => raise TypeError
              end;
  let path1 := match path0 with
               | String "/"%char _ => path0
               | _ => String "/"%char path0
               end in
  do src <- match env !! "src_id" with
            | Some (AAddr a) => ret (Some a)
            | Some ANone | None => ret None
            | _ => raise TypeError
            end;
  do rport <- match env !! "recv_port" with
              | Some (AInt z) => ret (Some z)
              | Some ANone | None => ret None
              | _ => raise TypeError
              end;
  match rport with Some z => open_udp_port z | None => ret tt end ;;
  do tmpl <- match env !! "arg_template" with
             | Some (AList l) => ret (Some l)
             | Some ANone | None => ret None
             | _ => raise TypeError
             end;
  do disp <- match env !! "dispatcher" with
             | Some (ADispatcher d) => ret d
             | Some ANone | None => ret default_dispatcher
             | _ => raise TypeError
             end;
  modify (set_proxies <[h := {| path := path1; src_id := src; recv_port := rport;
                                arg_template := tmpl; _func := func;
                                _permanent := false; enabled := false;
                                dispatcher := disp |}]>) ;;
  enable h.

(** Calling the class [OscFunc]: the arguments are bound first; the body
    runs on a new object only when that succeeded. *)
Definition OscFunc_call (args : list argval) (kwargs : list (string * argval))
  : M nat :=
  match bind_args __init__signature args kwargs with
  | Raise e => raise e
  | Ok env => do h <- fresh; __init__body h env ;; ret h
  end.

(** [OscFunc.matching(func, path, src_id, recv_port, arg_template)] *)
Definition matching (func path src_id recv_port arg_template : argval) : M nat :=
  OscFunc_call
    [func; path; src_id; recv_port; arg_template;
     ADispatcher default_matching_dispatcher] [].

(** The setter of [permanent]. *)
Definition set_permanent (h : nat) (v : bool) : M unit :=
  modify (set_proxies (alter (fun p =>
    {| path := path p; src_id := src_id p; recv_port := recv_port p;
       arg_template := arg_template p; _func := _func p;
       _permanent := v; enabled := enabled p; dispatcher := dispatcher p |}) h)) ;;
  do p <- proxy h;
  if v && enabled p then CmdPeriod_remove h else CmdPeriod_add h.

Definition empty_dispatcher : Dispatcher :=
  {| registered := false; active := ∅; wrapped_funcs := ∅ |}.

(** The module right after import. *)
Definition initial : State :=
  {| proxies := ∅; exact := empty_dispatcher; matching_d := empty_dispatcher;
     _all_func_proxies := ∅; cmd_period := []; notifications := [];
     osc_recv_funcs := []; udp_ports := []; next_oid := 0; calls := [] |}.

(** ** The wording of the specification, for comparison *)

(** A template slot against an argument as the docstring of [OscFunc] and
    the specification describe it: [None] matches anything, a function is
    called on the argument ([call1] gives its answer), any other value has
    to be equal to the argument. *)
Definition slot_matches (call1 : nat -> pyval -> bool) (slot arg : pyval) : bool :=
  match slot with
  | VNone => true
  | VFunc f => call1 f arg
  | _ => py_eqb slot arg
  end.

(** The template may be shorter than the argument list. *)
Fixpoint template_matches (call1 : nat -> pyval -> bool)
    (template args : list pyval) : bool :=
  match template, args with
  | [], _ => true
  | slot :: t', a :: args' => slot_matches call1 slot a && template_matches call1 t' args'
  | _ :: _, [] => false
  end.



End ResponseDefs.

Module ResponseDefsRest.

Import ResponseDefs.



(** ** OscFunc.trace *)

(** The two class methods that [_trace_func] can be. *)
Inductive trace_func : Type :=
| _trace_func_show_status
| _trace_func_hide_status.

Global Instance trace_func_eq_dec : EqDecision trace_func.
Proof. solve_decision. Defined.

(** The class attributes of [OscFunc] that [trace] uses, with the receive
    functions attached to [main] and whether [__on_cmd_period] of the class
    is subscribed to [CmdPeriod] (attach, detach, subscribe and unsubscribe
    as for the dispatchers above). *)
Record TraceState : Type :=
  { _trace_func : trace_func;
    _trace_running : bool;
    trace_recv_funcs : list trace_func;
    trace_cmd_period : bool }.

Definition trace_initial : TraceState :=
  {| _trace_func := _trace_func_show_status; _trace_running := false;
     trace_recv_funcs := []; trace_cmd_period := false |}.

(** [OscFunc.trace(flag, hide_status)] *)
Definition trace (flag hide_status : bool) (t : TraceState) : TraceState :=
  if flag && negb (_trace_running t) then
    let f := if hide_status then _trace_func_hide_status
             else _trace_func_show_status in
    {| _trace_func := f; _trace_running := true;
       trace_recv_funcs := add_once f (trace_recv_funcs t);
       trace_cmd_period := true |}
  else if _trace_running t then
    {| _trace_func := _trace_func t; _trace_running := false;
       trace_recv_funcs := drop_all (_trace_func t) (trace_recv_funcs t);
       trace_cmd_period := false |}
  else t.

(** A sequence of calls [trace(flag, hide_status)] after import. *)
Definition trace_calls (calls : list (bool * bool)) : TraceState :=
  foldl (fun t c => trace (fst c) (snd c) t) trace_initial calls.

End ResponseDefsRest.

(* ===================================================================== *)
(** * Concrete objects, to run the definitions *)
(* ===================================================================== *)

Module Examples.

Definition one : float := Eval vm_compute in float_of_ratio 1 1.
Definition half : float := Eval vm_compute in float_of_ratio 1 2.
Definition three_halves : float := Eval vm_compute in float_of_ratio 3 2.

(** A clock right after [_sched_init], started at wall time 0. *)
Definition clock0 : SystemClock :=
  {| _task_queue := {| queue := []; unfinished_tasks := 0 |};
     _time_of_initialization := S754_zero false;
     _elapsed_osc_offset := 0;
     next_beat := ∅;
     notified := 0;
     reported := [] |}.

(** Two plain functions and a routine. *)
Definition f : Task := {| task_id := 1; is_TimeThread := false |}.
Definition g : Task := {| task_id := 2; is_TimeThread := false |}.
Definition r : Task := {| task_id := 3; is_TimeThread := true |}.

(** The clock with [r] due at 1.0. *)
Definition clock1 : SystemClock := Eval vm_compute in fst (sched_abs one r clock0).

(** A world where every task yields 0.5 ... *)
Definition yields_half (t : Task) (w : unit) : unit * result pyval :=
  (w, Ok (VFloat half)).
(** ... and one where every task fails. *)
Definition fails (t : Task) (w : unit) : unit * result pyval :=
  (w, Raise (UserError "boom")).

End Examples.

Module ResponderExamples.

Import ResponseDefs.

Definition sender : NetAddr := {| addr := "127.0.0.1"; port := Some 57120 |}.
Definition now : float := S754_zero false.

(** A function that does nothing else, and one that frees responder 0. *)
Definition quiet : callback := {| cb_id := 11; cb_body := [] |}.
Definition frees_0 : callback := {| cb_id := 10; cb_body := [DoFree 0%nat] |}.
Definition quiet_10 : callback := {| cb_id := 10; cb_body := [] |}.

Definition state_of {A} (m : M A) (s : State) : State := fst (m s).

(** [OscFunc(quiet, '/a')]: responder 0, enabled. *)
Definition one_responder : State :=
  Eval vm_compute in state_of (OscFunc_call [AFunc quiet; AStr "/a"] []) initial.

(** Responder 0 of [one_responder], not yet added to any dispatcher. *)
Definition one_object : State :=
  Eval vm_compute in
    set_proxies <[0%nat := {| path := "/a"; src_id := None; recv_port := None;
                              arg_template := None; _func := Some quiet;
                              _permanent := false; enabled := false;
                              dispatcher := default_dispatcher |}]> initial.

(** [a = OscFunc(fa, '/x'); b = OscFunc(quiet, '/x')]: responders 0, 1. *)
Definition two_responders (fa : callback) : State :=
  state_of (OscFunc_call [AFunc quiet; AStr "/x"] [])
    (state_of (OscFunc_call [AFunc fa; AStr "/x"] []) initial).

Definition msg_x : list pyval := [VStr "/x"; VInt 1].

End ResponderExamples.

Module QueueExamples.

Import Examples.

(** [clock1] with [f] scheduled at 0.5: the queue is [(0.5, f); (1.0, r)]. *)
Definition clock2 : SystemClock := Eval vm_compute in fst (sched_abs half f clock1).


(** The queue after [f] at 1.0, [g] at 1.0 (which raised) and [f] at 0.5. *)
Definition tied : PriorityQueue :=
  Eval vm_compute in
    _task_queue
      (fst (sched_abs half f
              (fst (sched_abs one g (fst (sched_abs one f clock0)))))).

(** A world where every task ends the interpreter. *)
Definition exits (t : Task) (w : unit) : unit * result pyval :=
  (w, Raise SystemExit).

End QueueExamples.

Module SelectiveExamples.

Import ResponseDefs ResponderExamples.

(** The responder object 0 of [one_object]. *)
Definition plain_0 : OscFunc :=
  {| path := "/a"; src_id := None; recv_port := None; arg_template := None;
     _func := Some quiet; _permanent := false; enabled := false;
     dispatcher := default_dispatcher |}.

(** A responder object for ["/a"] from [sender] on port 57120 with the
    template [[1]], not yet added to any dispatcher. *)
Definition selective_0 : OscFunc :=
  {| path := "/a"; src_id := Some sender; recv_port := Some 57120;
     arg_template := Some [VInt 1]; _func := Some quiet;
     _permanent := false; enabled := false; dispatcher := default_dispatcher |}.

Definition selective_object : State :=
  Eval vm_compute in set_proxies <[0%nat := selective_0]> initial.

(** [one_responder] after [free()] of its responder. *)
Definition freed_responder : State :=
  Eval vm_compute in fst (free 0%nat one_responder).

Definition other_sender : NetAddr := {| addr := "10.0.0.1"; port := Some 57120 |}.

End SelectiveExamples.

(* ===================================================================== *)
(** * Properties of the priority queue *)
(* ===================================================================== *)

Section HeapFacts.

Lemma insert_cons_perm (l : list item) (j : nat) (a y : item) :
  l !! j = Some y -> y :: <[j := a]> l ≡ₚ a :: l.
Proof.
  revert j. induction l as [|b l IH]; intros j Hj; [done|].
  destruct j as [|j]; simpl in *.
  - injection Hj as ->. apply perm_swap.
  - rewrite (perm_swap b y), (IH j Hj). apply perm_swap.
Qed.

Lemma swap_perm (heap : list item) (i j : nat) : swap heap i j ≡ₚ heap.
Proof.
  unfold swap.
  destruct (heap !! i) as [x|] eqn:Hi; [|done].
  destruct (heap !! j) as [y|] eqn:Hj; [|done].
  destruct (decide (i = j)) as [->|Hne].
  - rewrite list_insert_insert_eq. rewrite Hi in Hj. injection Hj as ->.
    by rewrite list_insert_id.
  - apply (Permutation_cons_inv (a := x)).
    rewrite insert_cons_perm; last by rewrite list_lookup_insert_ne.
    by apply insert_cons_perm.
Qed.

Lemma swap_length (heap : list item) (i j : nat) :
  length (swap heap i j) = length heap.
Proof. apply Permutation_length, swap_perm. Qed.

Lemma _siftdown_perm (fuel : nat) (heap : list item) (startpos pos : nat) :
  fst (_siftdown fuel heap startpos pos) ≡ₚ heap.
Proof.
  revert heap pos. induction fuel as [|fuel IH]; intros heap pos; simpl; [done|].
  case_bool_decide; [|done].
  destruct (heap !! pos) as [x|]; [|done].
  destruct (heap !! Nat.div2 (pos - 1)) as [y|]; [|done].
  destruct (item_lt x y) as [[|]|e]; simpl; try done.
  rewrite IH. apply swap_perm.
Qed.

(** Within the list and with fuel for every level above [pos],
    [_siftdown] can only fail in a comparison. *)
Lemma _siftdown_raises (fuel : nat) (heap : list item) (startpos pos : nat) (e : exn) :
  (pos < length heap)%nat -> (pos < fuel)%nat ->
  snd (_siftdown fuel heap startpos pos) = Raise e -> e = TypeError.
Proof.
  revert heap pos. induction fuel as [|fuel IH]; intros heap pos Hpos Hfuel; [lia|].
  simpl. case_bool_decide as Hlt; [|done].
  destruct (lookup_lt_is_Some_2 heap pos Hpos) as [x ->].
  assert (Hp : (Nat.div2 (pos - 1) < pos)%nat).
  { pose proof (Nat.div2_decr (pos - 1) (pos - 1)). lia. }
  destruct (lookup_lt_is_Some_2 heap (Nat.div2 (pos - 1)) ltac:(lia)) as [y ->].
  unfold item_lt.
  destruct (feqb x.1 y.1).
  - destruct (task_is x.2 y.2); simpl; [done|]. by intros [= <-].
  - destruct (fltb x.1 y.1); simpl; [|done].
    apply IH; [rewrite swap_length|]; lia.
Qed.

Lemma heappush_perm (heap : list item) (x : item) :
  fst (heappush heap x) ≡ₚ x :: heap.
Proof.
  unfold heappush. rewrite _siftdown_perm. by rewrite Permutation_app_comm.
Qed.

Lemma heappush_raises (heap : list item) (x : item) (e : exn) :
  snd (heappush heap x) = Raise e -> e = TypeError.
Proof. apply _siftdown_raises; [rewrite length_app; simpl|]; lia. Qed.

Lemma put_perm (q : PriorityQueue) (x : item) :
  queue (fst (put q x)) ≡ₚ x :: queue q.
Proof.
  unfold put. pose proof (heappush_perm (queue q) x) as H.
  destruct (heappush (queue q) x) as [h [[]|e]]; exact H.
Qed.

Lemma item_lt_raises (a b : item) (e : exn) :
  item_lt a b = Raise e -> e = TypeError.
Proof.
  unfold item_lt. destruct (feqb a.1 b.1); [|done].
  destruct (task_is a.2 b.2); [done|]. by intros [= <-].
Qed.

(** The first loop of [_siftup] ends within the list, on a permutation of
    it, when [fuel] covers the levels below [pos]. *)
Lemma _siftup_loop_spec (fuel : nat) (heap : list item) (pos : nat) :
  (pos < length heap)%nat -> (Nat.div2 (length heap) - pos < fuel)%nat ->
  match _siftup_loop fuel heap pos with
  | (heap', Ok pos') => heap' ≡ₚ heap /\ (pos' < length heap)%nat
  | (heap', Raise e) => heap' ≡ₚ heap /\ e = TypeError
  end.
Proof.
  revert heap pos. induction fuel as [|fuel IH]; intros heap pos Hpos Hfuel; [lia|].
  simpl. case_bool_decide as Hlim; [|done].
  pose proof (Nat.div2_odd (length heap)) as Ho.
  assert (Hchild : (2 * pos + 1 < length heap)%nat).
  { destruct (Nat.odd (length heap)); simpl in Ho; lia. }
  assert (Hgo : forall c : nat, (2 * pos + 1 <= c < length heap)%nat ->
            match _siftup_loop fuel (swap heap c pos) c with
            | (heap', Ok pos') => heap' ≡ₚ heap /\ (pos' < length heap)%nat
            | (heap', Raise e) => heap' ≡ₚ heap /\ e = TypeError
            end).
  { intros c Hc.
    pose proof (IH (swap heap c pos) c) as H. rewrite swap_length in H.
    specialize (H ltac:(lia) ltac:(lia)).
    destruct (_siftup_loop fuel (swap heap c pos) c) as [h' [p'|e]];
      destruct H as [H1 H2]; (split; [|done]); by rewrite H1, swap_perm. }
  case_bool_decide as Hright.
  - destruct (lookup_lt_is_Some_2 heap (2 * pos + 1) Hchild) as [a Ha].
    destruct (lookup_lt_is_Some_2 heap (2 * pos + 1 + 1) Hright) as [b Hb].
    simpl in Ha, Hb. rewrite Ha, Hb.
    destruct (item_lt a b) as [[|]|e] eqn:Hab.
    + apply Hgo. lia.
    + apply Hgo. lia.
    + split; [done|]. by eapply item_lt_raises.
  - apply Hgo. lia.
Qed.

Lemma _siftup_spec (heap : list item) :
  heap <> [] ->
  match _siftup heap 0 with
  | (heap', Ok _) => heap' ≡ₚ heap
  | (heap', Raise e) => heap' ≡ₚ heap /\ e = TypeError
  end.
Proof.
  intros Hne. unfold _siftup.
  assert (Hlen : (0 < length heap)%nat) by (destruct heap; [done|simpl; lia]).
  pose proof (_siftup_loop_spec (length heap) heap 0 Hlen) as H.
  assert (Hf : (Nat.div2 (length heap) - 0 < length heap)%nat).
  { pose proof (Nat.div2_odd (length heap)) as Ho.
    destruct (Nat.odd (length heap)); simpl in Ho; lia. }
  specialize (H Hf).
  destruct (_siftup_loop (length heap) heap 0) as [h1 [p1|e]]; [|done].
  destruct H as [H1 H2].
  pose proof (_siftdown_perm (S p1) h1 0 p1) as Hp.
  pose proof (_siftdown_raises (S p1) h1 0 p1) as Hr.
  destruct (_siftdown (S p1) h1 0 p1) as [h2 [[]|e]]; simpl in *.
  - by rewrite Hp.
  - split; [by rewrite Hp|]. apply Hr; [|lia|done].
    by rewrite (Permutation_length H1).
Qed.

(** [heappop] takes one item out of the list; it fails on the empty list
    and when two tasks are compared. *)
Lemma heappop_spec (heap : list item) :
  match heappop heap with
  | (heap', Ok x) => x :: heap' ≡ₚ heap
  | (heap', Raise e) => (heap = [] /\ e = IndexError) \/ e = TypeError
  end.
Proof.
  unfold heappop. destruct (last heap) as [lastelt|] eqn:Hlast.
  - apply last_Some in Hlast as [l' ->].
    rewrite length_app. simpl.
    replace (length l' + 1 - 1)%nat with (length l') by lia.
    rewrite take_app_length.
    destruct l' as [|returnitem rest]; [done|].
    pose proof (_siftup_spec (lastelt :: rest) ltac:(done)) as H.
    destruct (_siftup (lastelt :: rest) 0) as [h [[]|e]].
    + rewrite H. simpl. rewrite <- Permutation_cons_append. done.
    + right. by destruct H.
  - left. split; [|done]. by apply last_None.
Qed.

End HeapFacts.

(* ===================================================================== *)
(** * Properties of binary64 arithmetic *)
(* ===================================================================== *)

Section FloatFacts.

Lemma digits2_pos_size (m : positive) : digits2_pos m = Pos.size m.
Proof. induction m; simpl; congruence. Qed.

Lemma digits2_log2 (m : positive) : Zpos (digits2_pos m) = Z.log2 (Zpos m) + 1.
Proof.
  rewrite digits2_pos_size.
  change (Zpos (Pos.size m)) with (Z.log2 (Zpos m~0)).
  change (Zpos m~0) with (2 * Zpos m).
  rewrite Z.log2_double; lia.
Qed.

Lemma digits2_bounds (m : positive) :
  2 ^ (Zpos (digits2_pos m) - 1) <= Zpos m < 2 ^ Zpos (digits2_pos m).
Proof.
  rewrite digits2_log2.
  replace (Z.log2 (Zpos m) + 1 - 1) with (Z.log2 (Zpos m)) by lia.
  apply Z.log2_spec. lia.
Qed.

Lemma digits2_unique (m : positive) (d : Z) :
  2 ^ (d - 1) <= Zpos m < 2 ^ d -> Zpos (digits2_pos m) = d.
Proof.
  intros H. rewrite digits2_log2.
  assert (0 <= d - 1).
  { destruct (Z.le_gt_cases 0 (d - 1)); [done|].
    assert (d <= 0) by lia.
    assert (2 ^ d <= 2 ^ 0) by (apply Z.pow_le_mono_r; lia).
    simpl in *. lia. }
  rewrite (Z.log2_unique (Zpos m) (d - 1)); [lia|lia|].
  replace (Z.succ (d - 1)) with d by lia. exact H.
Qed.

Lemma iter_pos_nat {A} (f : A -> A) (p : positive) (x : A) :
  SpecFloat.iter_pos f p x = Nat.iter (Pos.to_nat p) f x.
Proof.
  revert x. induction p as [p IH|p IH|]; intros x.
  - rewrite Pos2Nat.inj_xI. cbn [SpecFloat.iter_pos]. rewrite !IH.
    rewrite Nat.iter_succ_r.
    replace (2 * Pos.to_nat p)%nat with (Pos.to_nat p + Pos.to_nat p)%nat by lia.
    by rewrite Nat.iter_add.
  - rewrite Pos2Nat.inj_xO. cbn [SpecFloat.iter_pos]. rewrite !IH.
    replace (2 * Pos.to_nat p)%nat with (Pos.to_nat p + Pos.to_nat p)%nat by lia.
    by rewrite Nat.iter_add.
  - done.
Qed.

Lemma shr_1_spec (m : Z) (r s : bool) :
  0 <= m ->
  shr_1 {| shr_m := m; shr_r := r; shr_s := s |}
  = {| shr_m := m / 2; shr_r := Z.odd m; shr_s := r || s |}.
Proof.
  intros Hm. destruct m as [|p|p]; [done| |lia].
  destruct p as [p|p|]; simpl.
  - f_equal. rewrite Pos2Z.inj_xI. apply Z.div_unique with 1; lia.
  - f_equal. rewrite Pos2Z.inj_xO. apply Z.div_unique with 0; lia.
  - done.
Qed.

Lemma shr_iter_spec (n : nat) (m : Z) :
  0 <= m ->
  Nat.iter (S n) shr_1 {| shr_m := m; shr_r := false; shr_s := false |}
  = {| shr_m := m / 2 ^ Z.of_nat (S n);
       shr_r := Z.testbit m (Z.of_nat n);
       shr_s := negb (m mod 2 ^ Z.of_nat n =? 0) |}.
Proof.
  intros Hm. induction n as [|n IH].
  - rewrite Nat.iter_succ. unfold Nat.iter. cbn [nat_rect].
    rewrite shr_1_spec by done.
    change (Z.of_nat 1) with 1. change (Z.of_nat 0) with 0.
    by rewrite Z.bit0_odd, Z.pow_0_r, Z.mod_1_r.
  - rewrite Nat.iter_succ, IH. rewrite shr_1_spec by (apply Z.div_pos; lia).
    assert (Hp : 0 < 2 ^ Z.of_nat n) by (apply Z.pow_pos_nonneg; lia).
    assert (Hs : 2 ^ Z.of_nat (S n) = 2 ^ Z.of_nat n * 2).
    { rewrite Nat2Z.inj_succ, Z.pow_succ_r by lia. apply Z.mul_comm. }
    f_equal.
    + rewrite Z.div_div by lia. rewrite (Nat2Z.inj_succ (S n)), Z.pow_succ_r by lia.
      rewrite Hs. f_equal. lia.
    + rewrite Z.testbit_odd, Z.shiftr_div_pow2 by lia. done.
    + rewrite Z.testbit_odd, Z.shiftr_div_pow2 by lia.
      rewrite Hs, Z.rem_mul_r by lia.
      rewrite Zodd_mod.
      pose proof (Z.mod_pos_bound m (2 ^ Z.of_nat n) Hp).
      pose proof (Z.mod_pos_bound (m / 2 ^ Z.of_nat n) 2 ltac:(lia)).
      destruct (Z.eqb_spec (m mod 2 ^ Z.of_nat n) 0) as [E|E];
      destruct (Z.eqb_spec ((m / 2 ^ Z.of_nat n) mod 2) 1) as [F|F]; simpl;
        symmetry;
        first [apply Z.eqb_eq | apply negb_true_iff, Z.eqb_neq
              | apply negb_false_iff, Z.eqb_eq]; nia.
Qed.

Lemma Zdigits2_log2 (z : Z) : 0 < z -> Zdigits2 z = Z.log2 z + 1.
Proof. destruct z; try lia. intros _. apply digits2_log2. Qed.

Lemma fexp64 (e : Z) : fexp prec emax e = Z.max (e - 53) (-1074).
Proof. reflexivity. Qed.

Lemma shr_spec (m e n : Z) :
  0 <= m -> 0 < n ->
  shr {| shr_m := m; shr_r := false; shr_s := false |} e n
  = ({| shr_m := m / 2 ^ n;
        shr_r := Z.testbit m (n - 1);
        shr_s := negb (m mod 2 ^ (n - 1) =? 0) |}, e + n).
Proof.
  intros Hm Hn. destruct n as [|p|p]; try lia. unfold shr.
  rewrite iter_pos_nat.
  destruct (Pos2Nat.is_succ p) as [k Hk]. rewrite Hk, shr_iter_spec by done.
  replace (Z.of_nat (S k)) with (Zpos p) by lia.
  replace (Z.of_nat k) with (Zpos p - 1) by lia. done.
Qed.

(** Shifting out [sh] zero bits is exact. *)
Lemma shr_exact (M e sh : Z) :
  0 <= M -> 0 <= sh ->
  shr {| shr_m := M * 2 ^ sh; shr_r := false; shr_s := false |} e sh
  = ({| shr_m := M; shr_r := false; shr_s := false |}, e + sh).
Proof.
  intros HM Hsh. destruct (Z.eq_dec sh 0) as [->|Hne].
  - rewrite Z.pow_0_r, Z.mul_1_r, Z.add_0_r. done.
  - assert (0 < 2 ^ sh) by (apply Z.pow_pos_nonneg; lia).
    rewrite shr_spec by nia. f_equal. f_equal.
    + apply Z.div_mul. lia.
    + apply Z.mul_pow2_bits_low. lia.
    + replace (2 ^ sh) with (2 * 2 ^ (sh - 1)).
      2:{ rewrite <- Z.pow_succ_r by lia. f_equal. lia. }
      rewrite Z.mul_assoc, Z.mod_mul; [done|].
      apply Z.pow_nonzero; lia.
Qed.

Lemma round_aux_exact (s : bool) (M sh ex : Z) :
  0 < M -> 0 <= sh ->
  fexp prec emax (Z.log2 M + 1 + sh + ex) = ex + sh ->
  ex + sh <= 971 ->
  binary_round_aux prec emax s (M * 2 ^ sh) ex loc_Exact
  = S754_finite s (Z.to_pos M) (ex + sh).
Proof.
  intros HM Hsh Hf Hle.
  assert (Hp : 0 < 2 ^ sh) by (apply Z.pow_pos_nonneg; lia).
  assert (Hd : Zdigits2 (M * 2 ^ sh) = Z.log2 M + 1 + sh).
  { rewrite Zdigits2_log2 by nia. rewrite Z.log2_mul_pow2 by lia. lia. }
  unfold binary_round_aux, shr_fexp. rewrite Hd, Hf.
  replace (ex + sh - ex) with sh by lia.
  cbn [shr_record_of_loc]. rewrite shr_exact by lia.
  cbn [shr_m loc_of_shr_record round_nearest_even].
  rewrite Zdigits2_log2 by lia.
  replace (Z.log2 M + 1 + (ex + sh)) with (Z.log2 M + 1 + sh + ex) by lia.
  rewrite Hf, Z.sub_diag. cbn [shr shr_record_of_loc shr_m].
  destruct M as [|p|p]; try lia.
  apply Z.leb_le in Hle. change (emax - prec) with 971.
  by rewrite Hle.
Qed.


(** Less than half a unit is shifted out: the result is rounded down. *)
Lemma round_aux_down (s : bool) (q R sh ex : Z) :
  0 < q -> 1 <= sh -> 0 < R < 2 ^ (sh - 1) ->
  fexp prec emax (Z.log2 q + 1 + sh + ex) = ex + sh ->
  ex + sh <= 971 ->
  binary_round_aux prec emax s (q * 2 ^ sh + R) ex loc_Exact
  = S754_finite s (Z.to_pos q) (ex + sh).
Proof.
  intros Hq Hsh HR Hf Hle.
  assert (Hp : 0 < 2 ^ (sh - 1)) by (apply Z.pow_pos_nonneg; lia).
  assert (Hs : 2 ^ sh = 2 * 2 ^ (sh - 1)).
  { rewrite <- Z.pow_succ_r by lia. f_equal. lia. }
  assert (Hl : Z.log2 (q * 2 ^ sh + R) = Z.log2 q + sh).
  { pose proof (Z.log2_nonneg q).
    apply Z.log2_unique; [lia|].
    destruct (Z.log2_spec q Hq) as [H1 H2].
    rewrite Z.pow_succ_r in H2 by lia.
    replace (Z.succ (Z.log2 q + sh)) with (Z.succ (Z.log2 q) + sh) by lia.
    rewrite Z.pow_add_r by lia. rewrite Z.pow_add_r, Z.pow_succ_r by lia. nia. }
  assert (Hd : Zdigits2 (q * 2 ^ sh + R) = Z.log2 q + 1 + sh).
  { rewrite Zdigits2_log2 by nia. lia. }
  unfold binary_round_aux, shr_fexp. rewrite Hd, Hf.
  replace (ex + sh - ex) with sh by lia.
  cbn [shr_record_of_loc]. rewrite shr_spec by nia.
  assert (E1 : (q * 2 ^ sh + R) / 2 ^ sh = q).
  { symmetry. apply Z.div_unique with R; lia. }
  assert (E2 : Z.testbit (q * 2 ^ sh + R) (sh - 1) = false).
  { apply Z.testbit_false; [lia|].
    replace ((q * 2 ^ sh + R) / 2 ^ (sh - 1)) with (2 * q).
    - by rewrite Z.mul_comm, Z.mod_mul.
    - apply Z.div_unique with R; lia. }
  assert (E3 : (q * 2 ^ sh + R) mod 2 ^ (sh - 1) = R).
  { symmetry. apply Z.mod_unique with (2 * q); lia. }
  rewrite E1, E2, E3.
  destruct (Z.eqb_spec R 0) as [?|_]; [lia|].
  cbn [negb shr_m loc_of_shr_record round_nearest_even].
  rewrite Zdigits2_log2 by lia.
  replace (Z.log2 q + 1 + (ex + sh)) with (Z.log2 q + 1 + sh + ex) by lia.
  rewrite Hf, Z.sub_diag. cbn [shr shr_record_of_loc shr_m].
  destruct q as [|p|p]; try lia.
  apply Z.leb_le in Hle. change (emax - prec) with 971.
  by rewrite Hle.
Qed.


Lemma round_aux_exact0 (s : bool) (M ex : Z) :
  0 < M -> fexp prec emax (Z.log2 M + 1 + ex) = ex -> ex <= 971 ->
  binary_round_aux prec emax s M ex loc_Exact = S754_finite s (Z.to_pos M) ex.
Proof.
  intros HM Hf Hle.
  pose proof (round_aux_exact s M 0 ex HM (Z.le_refl 0)) as H.
  rewrite Z.pow_0_r, Z.mul_1_r, !Z.add_0_r in H. by apply H.
Qed.

Lemma int_of_float_nonpos (s : bool) (m : positive) (e : Z) :
  e <= 0 ->
  int_of_float (S754_finite s m e)
  = Ok (if s then - (Zpos m / 2 ^ (- e)) else Zpos m / 2 ^ (- e)).
Proof.
  intros He. unfold int_of_float. destruct e as [|p|p]; try lia.
  - by rewrite Z.shiftl_0_r, Z.div_1_r.
  - by rewrite Z.shiftr_div_pow2.
Qed.

Lemma iter_xO_pow2 (p d : positive) :
  Zpos (Pos.iter xO p d) = Zpos p * 2 ^ Zpos d.
Proof.
  induction d as [|d IH] using Pos.peano_ind.
  - simpl. lia.
  - rewrite Pos.iter_succ, Pos2Z.inj_xO, IH, Pos2Z.inj_succ, Z.pow_succ_r; lia.
Qed.

(** [elapsed * _SECONDS_TO_OSC] is exact, [int] drops the fraction. *)
Lemma elapsed_time_to_osc_finite (c : SystemClock) (s : bool) (m : positive) (e : Z) :
  bounded prec emax m e = true -> e <= -32 ->
  elapsed_time_to_osc c (S754_finite s m e)
  = Ok ((if s then - (Zpos m / 2 ^ (-32 - e)) else Zpos m / 2 ^ (-32 - e))
        + _elapsed_osc_offset c).
Proof.
  intros Hb He. unfold bounded, canonical_mantissa in Hb.
  apply andb_true_iff in Hb as [Hc _]. apply Z.eqb_eq in Hc.
  rewrite digits2_log2, fexp64 in Hc.
  unfold elapsed_time_to_osc, fmul, _SECONDS_TO_OSC, SFmul.
  rewrite xorb_false_r.
  set (sh := Z.max (Z.log2 (Zpos m) + 1 + e - 21) (-1074) - (e - 20)).
  assert (Hsh : 0 <= sh <= 52) by lia.
  assert (Hj : 0 < 2 ^ (52 - sh)) by (apply Z.pow_pos_nonneg; lia).
  replace (Zpos (m * 4503599627370496))
    with (Zpos m * 2 ^ (52 - sh) * 2 ^ sh).
  2:{ rewrite <- Z.mul_assoc, <- Z.pow_add_r by lia.
      replace (52 - sh + sh) with 52 by lia. done. }
  rewrite round_aux_exact; [|lia|lia| |lia].
  2:{ rewrite Z.log2_mul_pow2, fexp64 by lia. lia. }
  rewrite int_of_float_nonpos by lia. simpl. do 2 f_equal.
  rewrite Z2Pos.id by lia.
  replace (- (e + -20 + sh)) with (-32 - e + (52 - sh)) by lia.
  rewrite Z.pow_add_r by lia.
  assert (0 < 2 ^ (-32 - e)) by (apply Z.pow_pos_nonneg; lia).
  destruct s; rewrite Z.div_mul_cancel_r by lia; done.
Qed.


(** [float(z)] is exact for an int of at most 53 bits. *)
Lemma float_of_int_exact (s : bool) (P : positive) :
  Zpos P < 2 ^ 53 ->
  float_of_int (if s then Zneg P else Zpos P)
  = Ok (S754_finite s (Z.to_pos (Zpos P * 2 ^ (52 - Z.log2 (Zpos P))))
          (Z.log2 (Zpos P) - 52)).
Proof.
  intros HP.
  assert (Hl : 0 <= Z.log2 (Zpos P) < 53).
  { split; [apply Z.log2_nonneg|]. apply Z.log2_lt_pow2; lia. }
  assert (Hr : binary_round prec emax s P 0
               = S754_finite s (Z.to_pos (Zpos P * 2 ^ (52 - Z.log2 (Zpos P))))
                   (Z.log2 (Zpos P) - 52)).
  { unfold binary_round, shl_align.
    rewrite digits2_log2, fexp64.
    replace (Z.max (Z.log2 (Zpos P) + 1 + 0 - 53) (-1074) - 0)
      with (Z.log2 (Zpos P) - 52) by lia.
    replace (Z.max (Z.log2 (Zpos P) + 1 + 0 - 53) (-1074))
      with (Z.log2 (Zpos P) - 52) by lia.
    destruct (Z.log2 (Zpos P) - 52) as [|d|d] eqn:Hd; try lia.
    - replace (52 - Z.log2 (Zpos P)) with 0 by lia.
      rewrite Z.pow_0_r, Z.mul_1_r.
      apply round_aux_exact0; [lia| |lia]. rewrite fexp64. lia.
    - replace (52 - Z.log2 (Zpos P)) with (Zpos d) by lia.
      rewrite <- iter_xO_pow2.
      apply round_aux_exact0; [lia| |lia].
      rewrite iter_xO_pow2, Z.log2_mul_pow2, fexp64 by lia. lia. }
  unfold float_of_int, binary_normalize. destruct s; by rewrite Hr.
Qed.

(** [x * _OSC_TO_SECONDS] for a normal [x]: the double below
    [x * 2^-32]. *)
Lemma mul_OSC_TO_SECONDS (s : bool) (M : positive) (E : Z) :
  2 ^ 52 <= Zpos M < 2 ^ 53 -> -1041 <= E <= 1003 ->
  fmul (S754_finite s M E) _OSC_TO_SECONDS
  = if Zpos M =? 2 ^ 52 then S754_finite s 9007199254740991 (E - 33)
    else S754_finite s (Z.to_pos (Zpos M - 1)) (E - 32).
Proof.
  intros HM HE. unfold fmul, _OSC_TO_SECONDS, SFmul. rewrite xorb_false_r.
  rewrite Pos2Z.inj_mul.
  destruct (Z.eqb_spec (Zpos M) (2 ^ 52)) as [->|Hne].
  - replace (2 ^ 52 * 9007199254740991) with (9007199254740991 * 2 ^ 52) by lia.
    rewrite round_aux_exact; [|lia|lia| |lia].
    + f_equal. lia.
    + change (Z.log2 9007199254740991) with 52. rewrite fexp64. lia.
  - replace (Zpos M * 9007199254740991)
      with ((Zpos M - 1) * 2 ^ 53 + (2 ^ 53 - Zpos M)) by lia.
    assert (Hl : Z.log2 (Zpos M - 1) = 52).
    { apply Z.log2_unique; lia. }
    rewrite round_aux_down; [|lia|lia|lia| |lia].
    + f_equal. lia.
    + rewrite Hl, fexp64. lia.
Qed.


Lemma Q_dyadic_bound (z a : Z) :
  0 <= a -> Z.abs z <= 2 ^ a ->
  (Qabs (inject_Z z * 2 ^ (- a - 32)) <= 1 # 4294967296)%Q.
Proof.
  intros Ha Hz.
  assert (H2 : ~ (2 == 0)%Q) by done.
  assert (Hpow : (0 <= 2 ^ (- a - 32))%Q) by (apply Qpower_0_le; done).
  assert (E : (Qabs (inject_Z z * 2 ^ (- a - 32))
               == inject_Z (Z.abs z) * 2 ^ (- a - 32))%Q).
  { rewrite Qabs_Qmult. apply Qmult_comp; [reflexivity|by apply Qabs_pos]. }
  rewrite E.
  apply Qle_trans with (inject_Z (2 ^ a) * 2 ^ (- a - 32))%Q.
  - apply Qmult_le_compat_r; [by rewrite <- Zle_Qle|done].
  - rewrite Zpower_Qpower by done.
    rewrite <- Qpower_plus by done.
    replace (a + (- a - 32)) with (-32) by lia. done.
Qed.


Lemma float_to_Q_diff (s : bool) (A B : positive) (e : Z) :
  (float_to_Q (S754_finite s A e) - float_to_Q (S754_finite s B e)
   == inject_Z (if s then Zpos B - Zpos A else Zpos A - Zpos B) * 2 ^ e)%Q.
Proof.
  unfold float_to_Q. destruct s.
  - change (Zneg A) with (- Zpos A). change (Zneg B) with (- Zpos B).
    unfold Z.sub. rewrite inject_Z_plus, !inject_Z_opp. ring.
  - unfold Z.sub. rewrite inject_Z_plus, !inject_Z_opp. ring.
Qed.

Lemma float_to_Q_diff_half (s : bool) (A B : positive) (e : Z) :
  (float_to_Q (S754_finite s A (e - 1)) - float_to_Q (S754_finite s B e)
   == inject_Z (if s then 2 * Zpos B - Zpos A else Zpos A - 2 * Zpos B)
      * 2 ^ (e - 1))%Q.
Proof.
  assert (E : (2 ^ e == 2 * 2 ^ (e - 1))%Q).
  { replace e with (1 + (e - 1)) at 1 by lia. by rewrite Qpower_plus. }
  unfold float_to_Q. rewrite E. destruct s.
  - change (Zneg A) with (- Zpos A). change (Zneg B) with (- Zpos B).
    unfold Z.sub. rewrite inject_Z_plus, inject_Z_mult, !inject_Z_opp. ring.
  - unfold Z.sub. rewrite inject_Z_plus, !inject_Z_opp, inject_Z_mult. ring.
Qed.

Lemma float_to_Q_zero_diff (s : bool) (B : positive) (e : Z) :
  (float_to_Q (S754_zero false) - float_to_Q (S754_finite s B e)
   == inject_Z (if s then Zpos B else - Zpos B) * 2 ^ e)%Q.
Proof.
  unfold float_to_Q. destruct s.
  - change (Zneg B) with (- Zpos B). rewrite inject_Z_opp. ring.
  - rewrite inject_Z_opp. ring.
Qed.


Lemma SFltb_finite (m1 m2 : positive) (e1 e2 : Z) :
  SFltb (S754_finite false m1 e1) (S754_finite false m2 e2) = true ->
  e1 < e2 \/ (e1 = e2 /\ Zpos m1 < Zpos m2).
Proof.
  unfold SFltb, SFcompare. rewrite Pos.compare_cont_spec. unfold Pos.switch_Eq.
  destruct (Z.compare_spec e1 e2) as [->|?|?]; [|by left|done].
  destruct (Pos.compare_spec m1 m2) as [?|Hm|?]; try done.
  intros _. right. split; [done|]. by apply Pos2Z.pos_lt_pos.
Qed.

Lemma below_two_pow_21 (s : bool) (m : positive) (e : Z) :
  bounded prec emax m e = true ->
  fltb (SFabs (S754_finite s m e)) two_pow_21 = true ->
  e <= -32.
Proof.
  intros Hb Hlt. unfold bounded, canonical_mantissa in Hb.
  apply andb_true_iff in Hb as [Hc _]. apply Z.eqb_eq in Hc.
  rewrite digits2_log2, fexp64 in Hc.
  apply SFltb_finite in Hlt as [?|[-> Hm]]; [lia|].
  assert (Hl : Z.log2 (Zpos m) = 52) by lia.
  pose proof (Z.log2_spec (Zpos m) ltac:(lia)) as Hs. rewrite Hl in Hs.
  change (2 ^ 52) with 4503599627370496 in Hs. lia.
Qed.

End FloatFacts.

(* ===================================================================== *)
(** * Properties of the scheduler *)
(* ===================================================================== *)


Section SchedulerFacts.

Lemma _sched_add_perm (secs : float) (task : Task) (c : SystemClock) :
  queue (_task_queue (fst (_sched_add secs task c)))
  ≡ₚ (secs, task) :: queue (_task_queue c).
Proof.
  unfold _sched_add.
  pose proof (put_perm (_task_queue c) (secs, task)) as Hp.
  unfold put in *.
  destruct (heappush (queue (_task_queue c)) (secs, task)) as [h [[]|e]];
    simpl in *; [|done].
  unfold head_time at 2. simpl.
  destruct h as [|[t0 ?] h]; simpl; [done|].
  by destruct (negb (feqb t0 _)).
Qed.

(** [_sched_add] fails only when the queue compares two tasks. *)
Lemma _sched_add_raises (secs : float) (task : Task) (c : SystemClock) (e : exn) :
  snd (_sched_add secs task c) = Raise e -> e = TypeError.
Proof.
  unfold _sched_add.
  pose proof (put_perm (_task_queue c) (secs, task)) as Hp.
  pose proof (heappush_raises (queue (_task_queue c)) (secs, task)) as Hr.
  unfold put in *.
  destruct (heappush (queue (_task_queue c)) (secs, task)) as [h [[]|e']];
    simpl in *.
  - unfold head_time at 2. simpl.
    destruct h as [|[t0 ?] h]; simpl.
    + by apply Permutation_nil_cons in Hp.
    + by destruct (negb (feqb t0 _)).
  - intros [= <-]. by apply Hr.
Qed.

(** [get] hands out one entry of the queue and keeps the others; it can
    only fail when the heap compares two tasks. *)
Lemma get_spec (q q' : PriorityQueue) (r : result item) :
  get q = Some (q', r) ->
  match r with
  | Ok x => x :: queue q' ≡ₚ queue q
  | Raise e => e = TypeError
  end.
Proof.
  unfold get. pose proof (heappop_spec (queue q)) as H.
  destruct (queue q) as [|x0 l] eqn:Hq; [done|].
  destruct (heappop (x0 :: l)) as [h r']. intros [= <- <-]. simpl.
  destruct r' as [x|e]; [done|]. by destruct H as [[? _]|?].
Qed.

(** A tie on the time is decided by comparing the two task objects,
    which is an error for functions and routines. *)
Lemma item_lt_tie (t : float) (a b : Task) :
  feqb t t = true -> task_id a ≠ task_id b ->
  item_lt (t, a) (t, b) = Raise TypeError.
Proof.
  intros Ht Hne. unfold item_lt. simpl. rewrite Ht.
  unfold task_is. by destruct (Nat.eqb_spec (task_id a) (task_id b)).
Qed.

Lemma heappush_nil (x : item) : heappush [] x = ([x], Ok tt).
Proof. reflexivity. Qed.

Lemma heappush_tie (t : float) (a b : Task) :
  feqb t t = true -> task_id a <> task_id b ->
  heappush [(t, a)] (t, b) = ([(t, a); (t, b)], Raise TypeError).
Proof.
  intros Ht Hne. unfold heappush. cbn -[item_lt].
  by rewrite item_lt_tie by (done || by apply not_eq_sym).
Qed.

(** So the second of two different tasks scheduled at one time on an
    empty clock is refused, whatever the time and the tasks. *)
Lemma sched_abs_tie_raises (c : SystemClock) (t : float) (a b : Task) :
  queue (_task_queue c) = [] ->
  feqb t t = true -> feqb t inf = false -> task_id a <> task_id b ->
  snd (sched_abs t b (fst (sched_abs t a c))) = Raise TypeError.
Proof.
  intros Hq Ht Hinf Hne.
  assert (H1 : queue (_task_queue (fst (sched_abs t a c))) = [(t, a)]).
  { unfold sched_abs. rewrite Hinf. unfold _sched_add, put.
    rewrite Hq, heappush_nil. simpl. by destruct (negb (feqb t _)). }
  unfold sched_abs at 1. rewrite Hinf. unfold _sched_add, put.
  by rewrite H1, heappush_tie.
Qed.

Variable World : Type.
Variable call_task : Task -> World -> World * result pyval.

Lemma execute_queue (sched_time : float) (task : Task) (c : SystemClock) (w : World) :
  match call_task task w with
  | (_, Ok delta) =>
      if is_number delta then
        match float_add_val sched_time delta with
        | Ok time =>
            _task_queue (execute World call_task sched_time task c w).1.1
            = _task_queue (_sched_add time task c).1
        | Raise _ =>
            _task_queue (execute World call_task sched_time task c w).1.1
            = _task_queue c
        end
      else _task_queue (execute World call_task sched_time task c w).1.1
           = _task_queue c
  | (_, Raise _) =>
      _task_queue (execute World call_task sched_time task c w).1.1 = _task_queue c
  end.
Proof.
  unfold execute, resume.
  destruct (call_task task w) as [w' [delta|e]].
  - destruct (is_number delta); [|done].
    destruct (float_add_val sched_time delta) as [time|e]; simpl.
    + destruct (_sched_add time task c) as [c' [[]|e]]; simpl; [done|].
      destruct e; simpl; try done. by case_bool_decide.
    + destruct e; simpl; try done. by case_bool_decide.
  - destruct e; simpl; try done. by case_bool_decide.
Qed.

End SchedulerFacts.

Section SchedulerClaims.

Import Examples.

(** C1 (the code departs from it). Execution order is claimed to be by
    scheduled time and, on equal times, by insertion order, the task
    objects never being compared. Here two plain functions are scheduled
    at the same time 1.0 on an empty clock: the first insertion succeeds,
    the second one raises [TypeError] because the queue compares the two
    task objects, so no FIFO order is established between them. *)
Theorem sched_abs_equal_times_compares_tasks :
  sched_abs one f clock0
  = ({| _task_queue := {| queue := [(one, f)]; unfinished_tasks := 0 |};
        _time_of_initialization := S754_zero false;
        _elapsed_osc_offset := 0;
        next_beat := ∅; notified := 1; reported := [] |}, Ok tt)
  /\ snd (sched_abs one g (fst (sched_abs one f clock0))) = Raise TypeError
  /\ snd (sched (S754_zero false) (VFloat one) g (fst (sched_abs one f clock0)))
     = Raise TypeError.
Proof. by vm_compute. Qed.

Variable World : Type.
Variable call_task : Task -> World -> World * result pyval.

(** C3. When the loop executes the entry [(sched_time, task)] that it
    popped (leaving the queue [q]) and the task returns a number [delta],
    the task is put back by [_sched_add] at [sched_time + delta]: the
    queue becomes [q] plus the entry [(sched_time + delta, task)], and the
    wall-clock time plays no part. When the task returns anything else, or
    raises (a terminated routine raises [StopIteration]), the queue is
    [q]: the task is not put back. *)
Theorem resumed_task_rescheduled_from_scheduled_time
    (c : SystemClock) (w : World) (q : PriorityQueue)
    (sched_time : float) (task : Task) :
  get (_task_queue c) = Some (q, Ok (sched_time, task)) ->
  let after := _task_queue (perform_one World call_task c w).1.1 in
  match call_task task w with
  | (_, Ok delta) =>
      if is_number delta then
        forall time, float_add_val sched_time delta = Ok time ->
          after = _task_queue
                    (_sched_add time task (set_next_beat (set_queue c q) task None)).1
          /\ queue after ≡ₚ (time, task) :: queue q
      else after = q
  | (_, Raise _) => after = q
  end.
Proof.
  intros Hget after. subst after. unfold perform_one. rewrite Hget.
  pose proof (execute_queue World call_task sched_time task
                (set_next_beat (set_queue c q) task None) w) as H.
  destruct (call_task task w) as [w' [delta|e]]; [|exact H].
  destruct (is_number delta); [|exact H].
  intros time Ht. rewrite Ht in H. split; [exact H|].
  rewrite H. apply _sched_add_perm.
Qed.

(** C4. [sched] with [elapsed_time() + delta] equal to [math.inf] returns
    normally and changes nothing, the queue included; [sched_abs] at
    [math.inf] raises and changes nothing either. *)
Theorem sched_drops_infinity_sched_abs_raises
    (c : SystemClock) (elapsed : float) (delta : pyval) (seconds : float)
    (task : Task) :
  float_add_val elapsed delta = Ok seconds ->
  feqb seconds inf = true ->
  sched elapsed delta task c = (c, Ok tt)
  /\ exists msg, sched_abs inf task c = (c, Raise (GenericException msg)).
Proof.
  intros Hadd Hinf. split.
  - unfold sched. by rewrite Hadd, Hinf.
  - by eexists.
Qed.

(** C5. When the task of a ready entry raises an exception [e] (an
    [Exception], and not the [StopIteration] of a shallow trace that the
    loop takes as normal termination), the loop prints it once and goes on
    with the next iteration on the remaining entries: it does not end. *)
Theorem failing_task_reported_once_loop_continues
    (fuel : nat) (now : float) (c : SystemClock) (w w' : World)
    (q : PriorityQueue) (sched_time : float) (task : Task) (e : exn) :
  ready now c = true ->
  get (_task_queue c) = Some (q, Ok (sched_time, task)) ->
  call_task task w = (w', Raise e) ->
  is_Exception e = true ->
  (forall n, e = StopIteration n -> (2 < n)%nat) ->
  let c' := report (set_next_beat (set_queue c q) task None) e in
  reported c' = reported c ++ [e]
  /\ _task_queue c' = q
  /\ perform_ready World call_task (S fuel) now c w
     = perform_ready World call_task fuel now c' w'.
Proof.
  intros Hready Hget Hcall Hexc Hstop c'. split; [|split].
  - subst c'. unfold report. simpl. by destruct (is_TimeThread task).
  - subst c'. unfold report. simpl. by destruct (is_TimeThread task).
  - simpl. rewrite Hready. unfold perform_one. rewrite Hget.
    unfold execute, resume. rewrite Hcall.
    destruct e; simpl in *; try done.
    rewrite bool_decide_true; [done|]. by apply Hstop.
Qed.

End SchedulerClaims.

Section SchedulerWitnesses.

Import Examples.

Lemma resumed_task_rescheduled_witness :
  get (_task_queue clock1)
  = Some ({| queue := []; unfinished_tasks := 0 |}, Ok (one, r))
  /\ (_task_queue (perform_one unit yields_half clock1 tt).1.1
      = _task_queue
          (_sched_add three_halves r
             (set_next_beat
                (set_queue clock1 {| queue := []; unfinished_tasks := 0 |}) r None)).1
      /\ queue (_task_queue (perform_one unit yields_half clock1 tt).1.1)
         ≡ₚ [(three_halves, r)]).
Proof.
  split; [reflexivity|].
  exact (resumed_task_rescheduled_from_scheduled_time unit yields_half clock1 tt
           {| queue := []; unfinished_tasks := 0 |} one r eq_refl
           three_halves eq_refl).
Defined.

Lemma sched_drops_infinity_witness :
  float_add_val one (VFloat inf) = Ok inf
  /\ feqb inf inf = true
  /\ sched one (VFloat inf) f clock1 = (clock1, Ok tt)
  /\ exists msg, sched_abs inf f clock1 = (clock1, Raise (GenericException msg)).
Proof.
  split; [reflexivity|]. split; [reflexivity|].
  exact (sched_drops_infinity_sched_abs_raises clock1 one (VFloat inf) inf f
           eq_refl eq_refl).
Defined.

Lemma failing_task_witness :
  ready three_halves clock1 = true
  /\ reported (report (set_next_beat
                 (set_queue clock1 {| queue := []; unfinished_tasks := 0 |}) r None)
                 (UserError "boom"))
     = reported clock1 ++ [UserError "boom"]
  /\ perform_ready unit fails 5 three_halves clock1 tt
     = perform_ready unit fails 4 three_halves
         (report (set_next_beat
                    (set_queue clock1 {| queue := []; unfinished_tasks := 0 |}) r None)
            (UserError "boom")) tt.
Proof.
  split; [reflexivity|].
  pose proof (failing_task_reported_once_loop_continues unit fails 4 three_halves
                clock1 tt tt {| queue := []; unfinished_tasks := 0 |} one r
                (UserError "boom") eq_refl eq_refl eq_refl eq_refl) as H.
  destruct H as (H1 & _ & H3); [by intros n [=]|].
  split; [exact H1|exact H3].
Defined.

End SchedulerWitnesses.

Section ConversionClaims.

Import Examples.

(** C2. For every elapsed time [t] (a double) below 2^21 seconds in
    absolute value and every offset of the clock,
    [elapsed_time_to_osc] and then [osc_to_elapsed_time] both return, and
    the time that comes back differs from [t] by at most 2^-32 seconds.
    The values are those of binary64 arithmetic: the product by 2^32 is
    exact, [int] truncates, and the product by [_OSC_TO_SECONDS], which is
    the double just below 2^-32, rounds to the double below. *)
Theorem osc_round_trip (c : SystemClock) (t : float) :
  valid_binary prec emax t = true ->
  fltb (SFabs t) two_pow_21 = true ->
  exists (n : Z) (r : float),
    elapsed_time_to_osc c t = Ok n
    /\ osc_to_elapsed_time c n = Ok r
    /\ (Qabs (float_to_Q r - float_to_Q t) <= 1 # 4294967296)%Q.
Proof.
  intros Hv Hlt. destruct t as [s| | |s m e]; try done.
  - exists (0 + _elapsed_osc_offset c), (S754_zero false). split; [|split].
    + by destruct s.
    + unfold osc_to_elapsed_time. by rewrite Z.add_simpl_r.
    + done.
  - simpl in Hv.
    pose proof (below_two_pow_21 s m e Hv Hlt) as He.
    rewrite (elapsed_time_to_osc_finite c s m e Hv He).
    pose proof Hv as Hb. unfold bounded, canonical_mantissa in Hb.
    apply andb_true_iff in Hb as [Hc _]. apply Z.eqb_eq in Hc.
    rewrite digits2_log2, fexp64 in Hc.
    set (k := -32 - e) in *.
    assert (Hk : 0 <= k) by lia.
    assert (Hpk : 0 < 2 ^ k) by (apply Z.pow_pos_nonneg; lia).
    assert (HT : Zpos m < 2 ^ 53).
    { apply Z.log2_lt_pow2; lia. }
    pose proof (Z.div_mod (Zpos m) (2 ^ k) ltac:(lia)) as Hdm.
    pose proof (Z.mod_pos_bound (Zpos m) (2 ^ k) Hpk) as Hmod.
    destruct (Zpos m / 2 ^ k) as [|P|P] eqn:HN.
    + (* the integer part is zero *)
      eexists. exists (S754_zero false). split; [reflexivity|].
      unfold osc_to_elapsed_time. rewrite Z.add_simpl_r.
      split; [by destruct s|].
      rewrite float_to_Q_zero_diff.
      replace e with (- k - 32) by lia.
      apply Q_dyadic_bound; [done|]. destruct s; lia.
    + assert (HP : Zpos P < 2 ^ 53) by nia.
      assert (Hk52 : k <= 52).
      { assert (2 ^ k < 2 ^ 53) by nia.
        apply Z.pow_lt_mono_r_iff in H; lia. }
      assert (HlT : Z.log2 (Zpos m) = 52) by lia.
      assert (HlP : Z.log2 (Zpos P) = 52 - k).
      { rewrite <- HN, <- Z.shiftr_div_pow2, Z.log2_shiftr by lia. lia. }
      eexists. eexists. split; [reflexivity|].
      unfold osc_to_elapsed_time. rewrite Z.add_simpl_r.
      replace (if s then - Zpos P else Zpos P)
        with (if s then Zneg P else Zpos P) by (by destruct s).
      rewrite (float_of_int_exact s P HP). unfold Py.bind. rewrite HlP.
      replace (52 - (52 - k)) with k by lia.
      replace (52 - k - 52) with (- k) by lia.
      pose proof (Z.log2_spec (Zpos m) ltac:(lia)) as Hsm. rewrite HlT in Hsm.
      change (Z.succ 52) with 53 in Hsm.
      assert (HPk : 2 ^ 52 <= Zpos P * 2 ^ k < 2 ^ 53).
      { pose proof (Z.log2_spec (Zpos P) ltac:(lia)) as HsP. rewrite HlP in HsP.
        assert (E : 2 ^ 52 = 2 ^ (52 - k) * 2 ^ k).
        { rewrite <- Z.pow_add_r by lia. f_equal. lia. }
        split; [rewrite E; nia|nia]. }
      rewrite mul_OSC_TO_SECONDS; [|by rewrite Z2Pos.id by lia|lia].
      rewrite Z2Pos.id by lia.
      split; [reflexivity|].
      destruct (Z.eqb_spec (Zpos P * 2 ^ k) (2 ^ 52)) as [Heq|Hne].
      * replace e with (- k - 33 + 1) by lia.
        replace (- k - 33) with (- k - 33 + 1 - 1) at 1 by lia.
        rewrite float_to_Q_diff_half.
        replace (- k - 33 + 1 - 1) with (- (k + 1) - 32) by lia.
        apply Q_dyadic_bound; [lia|].
        rewrite Z.pow_add_r by lia. destruct s; lia.
      * replace e with (- k - 32) by lia.
        rewrite float_to_Q_diff. rewrite Z2Pos.id by nia.
        apply Q_dyadic_bound; [lia|]. destruct s; lia.
    + pose proof (Z.div_pos (Zpos m) (2 ^ k) ltac:(lia) Hpk). lia.
Qed.

Lemma osc_round_trip_witness :
  valid_binary prec emax three_halves = true
  /\ fltb (SFabs three_halves) two_pow_21 = true
  /\ exists (n : Z) (r : float),
       elapsed_time_to_osc clock0 three_halves = Ok n
       /\ osc_to_elapsed_time clock0 n = Ok r
       /\ (Qabs (float_to_Q r - float_to_Q three_halves) <= 1 # 4294967296)%Q.
Proof.
  split; [reflexivity|]. split; [reflexivity|].
  exact (osc_round_trip clock0 three_halves eq_refl eq_refl).
Defined.

(** The bound 2^-32 is reached: at the double just below 1.0 the time that
    comes back is exactly 2^-32 seconds away. *)
Remark osc_round_trip_bound_reached :
  let t := float_of_ratio 9007199254740991 9007199254740992 in
  exists (n : Z) (r : float),
    elapsed_time_to_osc clock0 t = Ok n
    /\ osc_to_elapsed_time clock0 n = Ok r
    /\ (Qabs (float_to_Q r - float_to_Q t) == 1 # 4294967296)%Q.
Proof. eexists. eexists. split; [reflexivity|]. split; reflexivity. Qed.

(** The bound of 2^21 seconds is the largest possible: at 3000000 seconds
    the time that comes back is 2^-31 seconds away. *)
Remark osc_round_trip_out_of_range :
  let t := float_of_ratio 3000000 1 in
  exists (n : Z) (r : float),
    elapsed_time_to_osc clock0 t = Ok n
    /\ osc_to_elapsed_time clock0 n = Ok r
    /\ (Qabs (float_to_Q r - float_to_Q t) == 1 # 2147483648)%Q.
Proof. eexists. eexists. split; [reflexivity|]. split; reflexivity. Qed.

End ConversionClaims.

(* ===================================================================== *)
(** * Properties of the dispatchers and responders *)
(* ===================================================================== *)


Section ResponderFacts.

Import ResponseDefs.

Lemma get_set_disp (d : disp_ref) (f : Dispatcher -> Dispatcher) (s : State) :
  get_disp d (set_disp d f s) = f (get_disp d s).
Proof. by destruct d. Qed.

(** [remove] never deletes a key of [active]: whatever it does and however
    it ends, the keys that were there before are still there. *)
Lemma remove_keeps_keys (d : disp_ref) (h : nat) (s : State) (key : string) :
  is_Some (active (get_disp d s) !! key) ->
  is_Some (active (get_disp d (fst (remove d h s))) !! key).
Proof.
  intros Hkey. unfold remove, NotificationCenter_unregister,
    get_keys_for_func_proxy, proxy, mbind, modify, gets, ret. simpl.
  set (s0 := set_notifications (drop_all (h, d)) s).
  assert (H0 : is_Some (active (get_disp d s0) !! key)) by (by destruct d).
  clearbody s0. clear Hkey.
  destruct (proxies s !! h) as [p|]; simpl; [|done].
  destruct (wrapped_funcs (get_disp d s0) !! h) as [w|]; simpl; [|done].
  unfold mbind, ret.
  destruct (active (get_disp d s0) !! path p) as [l|]; simpl; [|done].
  destruct (list_remove_first w l) as [l'|e]; simpl; [|done].
  assert (H1 : is_Some (active (get_disp d
             (set_disp d (set_wrapped_funcs (delete h))
                (set_disp d (set_active <[path p := l']>) s0))) !! key)).
  { rewrite !get_set_disp. simpl. apply lookup_insert_is_Some.
    destruct (decide (path p = key)); [by left|by right]. }
  destruct (size _ =? 0)%nat; [|done].
  unfold unregister, remove_osc_recv_func, mbind, modify. simpl.
  revert H1. rewrite !get_set_disp. simpl. by destruct d.
Qed.

(** [enable] tests [enabled] first: on an enabled responder it changes
    nothing. *)
Lemma enable_enabled_noop (h : nat) (p : OscFunc) (s : State) :
  proxies s !! h = Some p -> enabled p = true -> enable h s = (s, Ok tt).
Proof.
  intros Hp He. unfold enable, proxy, mbind. by rewrite Hp, He.
Qed.

(** On a template of plain values that is not longer than the arguments,
    the loop of [OSCArgsMatcher.__call__] decides what the specification
    describes. *)
Lemma template_pass_values (call1 : nat -> pyval -> bool) (template args : list pyval) :
  Forall (fun v => forall f, v <> VFunc f) template ->
  (length template <= length args)%nat ->
  template_pass template args = Ok (template_matches call1 template args).
Proof.
  intros Hv. revert args. induction Hv as [|v t Hf _ IH]; intros args Hlen; [done|].
  destruct args as [|a args]; simpl in Hlen; [lia|].
  specialize (IH args ltac:(lia)).
  destruct v; simpl; rewrite ?IH; try done;
    try (by destruct (py_eqb _ a)).
  by destruct (Hf id).
Qed.


End ResponderFacts.

Section ResponderClaims.

Import ResponseDefs ResponderExamples.

(** C6 (the code departs from it). The registry is claimed to hold no
    empty list and to detach from the message source when its last
    registration goes. Here one responder with path ["/a"] is added to the
    dispatcher and removed again: [remove] returns, the key ["/a"] stays
    in [active] with the empty list, and as [len(self.active)] is 1 the
    dispatcher is not unregistered: it is still attached. *)
Theorem remove_last_leaves_empty_list_and_stays_attached :
  let s1 := fst (add default_dispatcher 0%nat one_object) in
  let s2 := fst (remove default_dispatcher 0%nat s1) in
  snd (add default_dispatcher 0%nat one_object) = Ok tt
  /\ active (exact s1) !! "/a" = Some [WFunc (Some quiet)]
  /\ snd (remove default_dispatcher 0%nat s1) = Ok tt
  /\ active (exact s2) !! "/a" = Some []
  /\ size (active (exact s2)) = 1%nat
  /\ wrapped_funcs (exact s2) = ∅
  /\ registered (exact s2) = true
  /\ osc_recv_funcs s2 = [default_dispatcher].
Proof. by vm_compute. Qed.

(** C7 (the code departs from it). Two responders on ["/x"] are claimed to
    both receive one message, in registration order, also when one of them
    is freed while the message is dispatched. When neither function frees
    anything both are called, in that order. When the function of the
    first responder frees that responder, the second one, still enabled
    and still in the registry, is not called for this message: the loop
    of [__call__] walks the list that [remove] has just shortened. *)
Theorem free_during_dispatch_skips_second_responder :
  (let '(s, res) := dispatch default_dispatcher msg_x now sender 57120
                      (two_responders quiet_10) in
   res = Ok tt /\ calls s = [(10%nat, msg_x); (11%nat, msg_x)])
  /\
  (let '(s, res) := dispatch default_dispatcher msg_x now sender 57120
                      (two_responders frees_0) in
   res = Ok tt
   /\ calls s = [(10%nat, msg_x)]
   /\ enabled <$> proxies s !! 1%nat = Some true
   /\ active (exact s) !! "/x" = Some [WFunc (Some quiet)]).
Proof. by vm_compute. Qed.

(** C8 (the code departs from it). A template slot that is a function is
    claimed, by the specification and by the docstring of [OscFunc], to
    be called on the argument. With the template [[lambda x: True]] and
    the message ['/a', 1] the described matching succeeds, but
    [OSCArgsMatcher.__call__] compares the function with the argument by
    [!=] and returns without calling the responder's function. *)
Theorem function_slot_is_compared_not_called (s : State) :
  template_matches (fun _ _ => true) [VFunc 0] [VInt 1] = true
  /\ template_pass [VFunc 0] [VInt 1] = Ok false
  /\ OSCArgsMatcher_call [VFunc 0] (Some quiet) [VStr "/a"; VInt 1] s = (s, Ok tt).
Proof. done. Qed.

(** C9 (the code departs from it). [disable()] on a disabled responder is
    claimed to be a no-op. [disable] has no test of [enabled], unlike
    [enable]: on a responder that was created and disabled once, the
    second [disable()] raises [KeyError] in [remove], at
    [self.wrapped_funcs[func_proxy]]. *)
Theorem disable_twice_raises_KeyError :
  let s1 := fst (disable 0%nat one_responder) in
  snd (disable 0%nat one_responder) = Ok tt
  /\ enabled <$> proxies s1 !! 0%nat = Some false
  /\ disable 0%nat s1 = (s1, Raise KeyError).
Proof. by vm_compute. Qed.

(** C10. [OscFunc.matching] passes six positional arguments to a
    constructor that takes at most three: every call raises [TypeError]
    while the arguments are bound, before any statement of [__init__]
    runs, so nothing is registered and no state changes. *)
Theorem matching_always_raises_TypeError
    (func path src_id recv_port arg_template : argval) (s : State) :
  matching func path src_id recv_port arg_template s = (s, Raise TypeError).
Proof. reflexivity. Qed.

End ResponderClaims.

(* ===================================================================== *)
(** * Further properties of the queue, the clock and the responders *)
(* ===================================================================== *)

Section FloatOrder.

Ltac cmp_cases :=
  repeat match goal with
    | |- context [Pos.compare_cont Eq ?a ?b] =>
        rewrite (Pos.compare_cont_spec a b); unfold Pos.switch_Eq
    | |- context [Z.compare ?a ?b] => destruct (Z.compare_spec a b)
    | |- context [Pos.compare ?a ?b] => destruct (Pos.compare_spec a b)
    end.

Lemma fltb_asym (a b : float) : fltb a b = true -> fltb b a = false.
Proof.
  unfold fltb, SFltb, SFcompare.
  destruct a as [[]|[]| |[] ma ea], b as [[]|[]| |[] mb eb]; try done;
    cmp_cases; simpl; try done; try lia.
Qed.

Lemma fltb_negtrans (x y z : float) :
  y <> S754_nan -> fltb y x = false -> fltb z y = false -> fltb z x = false.
Proof.
  intros Hy. unfold fltb, SFltb, SFcompare.
  destruct x as [[]|[]| |[] mx ex], y as [[]|[]| |[] my ey],
           z as [[]|[]| |[] mz ez]; try done;
    cmp_cases; simpl; try done; try lia.
Qed.


End FloatOrder.

Section HeapOrder.

Lemma div2_bounds (n : nat) : (2 * Nat.div2 n <= n <= 2 * Nat.div2 n + 1)%nat.
Proof.
  pose proof (Nat.div2_odd n) as H. destruct (Nat.odd n); simpl in H; lia.
Qed.

Lemma feqb_fltb (a b : float) : feqb a b = true -> fltb a b = false.
Proof.
  unfold feqb, fltb, SFeqb, SFltb. by destruct (SFcompare a b) as [[]|].
Qed.

Lemma time_le_trans (a b c : item) :
  fst b <> S754_nan -> time_le a b -> time_le b c -> time_le a c.
Proof. unfold time_le. intros Hb Hab Hbc. by eapply fltb_negtrans. Qed.

Lemma item_lt_true (x p : item) : item_lt x p = Ok true -> time_le x p.
Proof.
  unfold item_lt, time_le. destruct (feqb x.1 p.1).
  - by destruct (task_is x.2 p.2).
  - intros [= H]. by apply fltb_asym.
Qed.

Lemma item_lt_false (x p : item) : item_lt x p = Ok false -> time_le p x.
Proof.
  unfold item_lt, time_le. destruct (feqb x.1 p.1) eqn:He.
  - intros _. by apply feqb_fltb.
  - by intros [= H].
Qed.

Lemma swap_lookup (h : list item) (i j k : nat) :
  (i < length h)%nat -> (j < length h)%nat ->
  swap h i j !! k
  = if decide (k = i) then h !! j else if decide (k = j) then h !! i else h !! k.
Proof.
  intros Hi Hj. unfold swap.
  destruct (lookup_lt_is_Some_2 h i Hi) as [x Hx].
  destruct (lookup_lt_is_Some_2 h j Hj) as [y Hy].
  rewrite Hx, Hy.
  destruct (decide (k = i)) as [->|Hki].
  - rewrite list_lookup_insert_eq; [done|]. by rewrite length_insert.
  - rewrite list_lookup_insert_ne by done.
    destruct (decide (k = j)) as [->|Hkj].
    + by rewrite list_lookup_insert_eq.
    + by rewrite list_lookup_insert_ne.
Qed.

Lemma no_nan_perm (h h' : list item) : h' ≡ₚ h -> no_nan h -> no_nan h'.
Proof. intros Hp. unfold no_nan. by rewrite Hp. Qed.

Lemma no_nan_lookup (h : list item) (i : nat) (x : item) :
  no_nan h -> h !! i = Some x -> fst x <> S754_nan.
Proof. intros Hn Hi. by apply (proj1 (Forall_lookup _ h) Hn i x). Qed.

(** The heap order everywhere but around position [pos]: the pairs that do
    not involve [pos] are in order, and so are the parent of [pos] and the
    children of [pos]. *)
Lemma _siftdown_ordered (fuel : nat) (h h' : list item) (pos : nat) :
  no_nan h -> (pos < length h)%nat -> (pos < fuel)%nat ->
  hole_ok h pos -> below_ok h pos ->
  _siftdown fuel h 0 pos = (h', Ok tt) -> heap_ordered h'.
Proof.
  revert h pos. induction fuel as [|fuel IH]; intros h pos Hn Hpos Hfuel [H1 H2] H3; [lia|].
  simpl. case_bool_decide as Hlt.
  - destruct (lookup_lt_is_Some_2 h pos Hpos) as [x Hx].
    pose proof (div2_bounds (pos - 1)) as Hd.
    assert (Hpp : (Nat.div2 (pos - 1) < length h)%nat) by lia.
    destruct (lookup_lt_is_Some_2 h _ Hpp) as [P HP].
    rewrite Hx, HP.
    destruct (item_lt x P) as [[|]|e] eqn:Hcmp; [| |done].
    + (* the item moves up *)
      apply item_lt_true in Hcmp.
      pose proof (no_nan_lookup h _ P Hn HP) as HPn.
      apply IH.
      * eapply no_nan_perm; [apply swap_perm|done].
      * by rewrite swap_length.
      * lia.
      * split.
        -- intros i a b Hi Hne1 Hne2.
           rewrite !swap_lookup by done.
           destruct (decide (i = pos)) as [->|Hip]; [done|].
           destruct (decide (i = Nat.div2 (pos - 1))) as [?|_]; [done|].
           destruct (decide (Nat.div2 (i - 1) = pos)) as [Hdp|Hdp].
           ++ intros Ha Hb. apply (H2 i a b); done || lia.
           ++ destruct (decide (Nat.div2 (i - 1) = Nat.div2 (pos - 1))); [done|].
              intros Ha Hb. by apply (H1 i a b).
        -- intros k a g Hpp0 Hk Hkp.
           rewrite !swap_lookup by done.
           pose proof (div2_bounds (Nat.div2 (pos - 1) - 1)).
           pose proof (div2_bounds (k - 1)).
           assert (HG : forall g', h !! Nat.div2 (Nat.div2 (pos - 1) - 1) = Some g' ->
                          time_le g' P).
           { intros g' Hg'. apply (H1 (Nat.div2 (pos - 1)) P g'); try done; lia. }
           destruct (decide (Nat.div2 (Nat.div2 (pos - 1) - 1) = pos)); [lia|].
           destruct (decide (Nat.div2 (Nat.div2 (pos - 1) - 1) = Nat.div2 (pos - 1)));
             [lia|].
           destruct (decide (k = pos)) as [->|Hkpos].
           ++ intros Ha Hg. rewrite HP in Ha. injection Ha as <-. by apply HG.
           ++ destruct (decide (k = Nat.div2 (pos - 1))); [lia|].
              intros Ha Hg.
              apply (time_le_trans g P a); [done|by apply HG|].
              apply (H1 k a P); [done|done|lia|done|by rewrite Hkp].
      * intros k a y Hk Hkp.
        rewrite !swap_lookup by done.
        pose proof (div2_bounds (k - 1)).
        destruct (decide (Nat.div2 (pos - 1) = pos)); [lia|].
        destruct (decide (Nat.div2 (pos - 1) = Nat.div2 (pos - 1))); [|done].
        destruct (decide (k = pos)) as [->|Hkpos].
        -- intros Ha Hy. rewrite HP in Ha. rewrite Hx in Hy. by simplify_eq.
        -- destruct (decide (k = Nat.div2 (pos - 1))); [lia|].
           intros Ha Hy. rewrite Hx in Hy. injection Hy as <-.
           apply (time_le_trans x P a); [done|done|].
           apply (H1 k a P); [done|done|lia|done|by rewrite Hkp].
    + (* the item stays *)
      intros [= <-]. apply item_lt_false in Hcmp.
      intros i a b Hi Ha Hb.
      destruct (decide (i = pos)) as [->|Hne1].
      { rewrite Hx in Ha. rewrite HP in Hb. by simplify_eq. }
      destruct (decide (Nat.div2 (i - 1) = pos)) as [Heq|Hne2].
      { rewrite Heq in Hb. by apply (H3 i a b). }
      by apply (H1 i a b).
  - intros [= <-]. assert (pos = 0%nat) as -> by lia.
    intros i a b Hi Ha Hb.
    destruct (decide (Nat.div2 (i - 1) = 0%nat)) as [Heq|Hne2].
    { rewrite Heq in Hb. by apply (H3 i a b). }
    apply (H1 i a b); try done; lia.
Qed.

Lemma heappush_ordered (h h' : list item) (x : item) :
  heap_ordered h -> no_nan h -> fst x <> S754_nan ->
  heappush h x = (h', Ok tt) -> heap_ordered h'.
Proof.
  intros Hh Hn Hx. unfold heappush.
  assert (Hlen : length (h ++ [x]) = S (length h)) by (rewrite length_app; simpl; lia).
  apply _siftdown_ordered; [|lia|lia| |].
  - apply Forall_app. split; [done|]. by apply Forall_singleton.
  - split.
    + intros i a p Hi Hne1 Hne2 Ha Hp.
      pose proof (lookup_lt_Some _ _ _ Ha) as Hlt. rewrite Hlen in Hlt.
      pose proof (div2_bounds (i - 1)).
      rewrite lookup_app_l in Ha by lia. rewrite lookup_app_l in Hp by lia.
      by apply (Hh i a p).
    + intros k a g _ Hk Hkp Ha _.
      pose proof (lookup_lt_Some _ _ _ Ha) as Hlt. rewrite Hlen in Hlt.
      pose proof (div2_bounds (k - 1)). lia.
  - intros k a y Hk Hkp Ha _.
    pose proof (lookup_lt_Some _ _ _ Ha) as Hlt. rewrite Hlen in Hlt.
    pose proof (div2_bounds (k - 1)). lia.
Qed.

(** The first loop of [_siftup] moves the hole down to a leaf. *)
Lemma _siftup_loop_ordered (fuel : nat) (h h' : list item) (pos pos' : nat) :
  no_nan h -> (pos < length h)%nat ->
  hole_ok h pos ->
  _siftup_loop fuel h pos = (h', Ok pos') ->
  hole_ok h' pos' /\ (length h' <= 2 * pos' + 1)%nat /\ (pos' < length h')%nat
  /\ h' ≡ₚ h.
Proof.
  revert h pos. induction fuel as [|fuel IH]; intros h pos Hn Hpos [H1 H2]; [done|].
  cbn [_siftup_loop]. pose proof (div2_bounds (length h)) as Hdl.
  case_bool_decide as Hlim.
  2:{ intros [= <- <-]. split; [done|]. split; [lia|]. by split. }
  assert (Hgo : forall (c : nat) (C : item),
            (c = 2 * pos + 1 \/ c = 2 * pos + 2)%nat -> (c < length h)%nat ->
            h !! c = Some C ->
            (forall (d : nat) (D : item),
                (d = 2 * pos + 1 \/ d = 2 * pos + 2)%nat -> d <> c ->
                h !! d = Some D -> time_le C D) ->
            _siftup_loop fuel (swap h c pos) c = (h', Ok pos') ->
            hole_ok h' pos' /\ (length h' <= 2 * pos' + 1)%nat
            /\ (pos' < length h')%nat /\ h' ≡ₚ h).
  { intros c C Hc Hclen HC Hsib Hrec.
    pose proof (div2_bounds (c - 1)) as Hdc.
    apply IH in Hrec.
    - destruct Hrec as (Ha & Hb & Hc' & Hd).
      split; [done|]. split; [done|]. split; [done|]. by rewrite Hd, swap_perm.
    - eapply no_nan_perm; [apply swap_perm|done].
    - by rewrite swap_length.
    - split.
      + intros i a p Hi Hne1 Hne2.
        rewrite !swap_lookup by done.
        pose proof (div2_bounds (i - 1)).
        destruct (decide (i = c)); [done|].
        destruct (decide (Nat.div2 (i - 1) = c)); [done|].
        destruct (decide (i = pos)) as [->|Hip].
        * destruct (decide (Nat.div2 (pos - 1) = pos)); [lia|].
          intros Ha Hp. rewrite HC in Ha. injection Ha as <-.
          apply (H2 c C p); done || lia.
        * destruct (decide (Nat.div2 (i - 1) = pos)) as [Hdp|Hdp].
          -- intros Ha Hp. rewrite HC in Hp. injection Hp as <-.
             apply (Hsib i a); done || lia.
          -- intros Ha Hp. by apply (H1 i a p).
      + intros k a g Hc0 Hk Hkc.
        rewrite !swap_lookup by done.
        pose proof (div2_bounds (k - 1)).
        pose proof (div2_bounds (c - 1)).
        destruct (decide (k = c)); [lia|].
        destruct (decide (k = pos)); [lia|].
        destruct (decide (Nat.div2 (c - 1) = c)); [lia|].
        destruct (decide (Nat.div2 (c - 1) = pos)); [|lia].
        intros Ha Hg. rewrite HC in Hg. injection Hg as <-.
        apply (H1 k a C); [done|lia|lia|done|by rewrite Hkc]. }
  destruct (lookup_lt_is_Some_2 h (2 * pos + 1) ltac:(lia)) as [a Ha].
  case_bool_decide as Hright.
  - destruct (lookup_lt_is_Some_2 h (2 * pos + 1 + 1) Hright) as [b Hb].
    rewrite Ha, Hb.
    destruct (item_lt a b) as [[|]|e] eqn:Hcmp; [| |done].
    + apply (Hgo (2 * pos + 1)%nat a); [lia|lia|done|].
      intros d D [->| ->] Hne HD; [done|].
      replace (2 * pos + 2)%nat with (2 * pos + 1 + 1)%nat in HD by lia.
      rewrite Hb in HD. injection HD as <-. by apply item_lt_true.
    + apply (Hgo (2 * pos + 1 + 1)%nat b); [lia|lia|done|].
      intros d D [->| ->] Hne HD; [|lia].
      rewrite Ha in HD. injection HD as <-. by apply item_lt_false.
  - apply (Hgo (2 * pos + 1)%nat a); [lia|lia|done|].
    intros d D [->| ->] Hne HD; [done|].
    apply lookup_lt_Some in HD. lia.
Qed.

Lemma time_le_refl (a : item) : time_le a a.
Proof.
  unfold time_le. destruct (fltb a.1 a.1) eqn:H; [|done].
  by rewrite (fltb_asym _ _ H) in H.
Qed.

(** In an ordered heap without NaN no entry is earlier than the root. *)
Lemma heap_root_min (h : list item) (r : item) :
  heap_ordered h -> no_nan h -> h !! 0%nat = Some r ->
  forall (i : nat) (x : item), h !! i = Some x -> time_le r x.
Proof.
  intros Hh Hn Hr i. induction i as [i IH] using lt_wf_ind. intros x Hx.
  destruct (decide (i = 0%nat)) as [->|Hi].
  - rewrite Hr in Hx. injection Hx as <-. apply time_le_refl.
  - pose proof (div2_bounds (i - 1)) as Hd.
    pose proof (lookup_lt_Some _ _ _ Hx) as Hlt.
    destruct (lookup_lt_is_Some_2 h (Nat.div2 (i - 1)) ltac:(lia)) as [P HP].
    apply (time_le_trans r P x).
    + by eapply no_nan_lookup.
    + apply (IH (Nat.div2 (i - 1))); [lia|done].
    + apply (Hh i x P); [lia|done|done].
Qed.

Lemma heappop_ordered (h h' : list item) (x : item) :
  heap_ordered h -> no_nan h -> heappop h = (h', Ok x) ->
  heap_ordered h' /\ h !! 0%nat = Some x.
Proof.
  intros Hh Hn. unfold heappop.
  destruct (last h) as [lastelt|] eqn:Hlast; [|done].
  apply last_Some in Hlast as [l' ->].
  rewrite length_app. simpl.
  replace (length l' + 1 - 1)%nat with (length l') by lia.
  rewrite take_app_length.
  destruct l' as [|returnitem rest].
  { intros [= <- <-]. split; [|done]. by intros i a p Hi Ha. }
  unfold _siftup.
  destruct (_siftup_loop (length (lastelt :: rest)) (lastelt :: rest) 0)
    as [h1 [p1|e]] eqn:Hloop; [|done].
  assert (Hn2 : no_nan (lastelt :: rest)).
  { unfold no_nan in *.
    destruct (proj1 (Forall_app _ _ _) Hn) as [Ha Hb].
    destruct (proj1 (Forall_cons _ _ _) Ha) as [_ Hc].
    apply Forall_cons. split; [|done].
    exact (proj1 (Forall_singleton _ _) Hb). }
  apply _siftup_loop_ordered in Hloop; [|done|simpl; lia|].
  2:{ split; [|intros; lia].
      intros i a p Hi Hne1 Hne2 Ha Hp.
      pose proof (div2_bounds (i - 1)).
      pose proof (lookup_lt_Some _ _ _ Ha) as Hlt. simpl in Hlt.
      destruct i as [|i]; [lia|].
      destruct (Nat.div2 (S i - 1)) as [|d] eqn:Hd; [done|].
      simpl in Ha, Hp.
      apply (Hh (S i) a p); [lia| |].
      - simpl. rewrite lookup_app_l by lia. done.
      - rewrite Hd. simpl. rewrite lookup_app_l by lia. done. }
  destruct Hloop as (Hhole & Hleaf & Hp1 & Hperm).
  destruct (_siftdown (S p1) h1 0 p1) as [h2 [[]|e]] eqn:Hsd; [|done].
  intros [= <- <-]. split; [|done].
  apply (_siftdown_ordered (S p1) h1 h2 p1); try done.
  - by eapply no_nan_perm.
  - lia.
  - intros k a y Hk Hkp Ha _.
    pose proof (lookup_lt_Some _ _ _ Ha). pose proof (div2_bounds (k - 1)). lia.
Qed.


Lemma fltb_feqb (a b : float) : fltb a b = true -> feqb a b = false.
Proof.
  unfold feqb, fltb, SFeqb, SFltb. by destruct (SFcompare a b) as [[]|].
Qed.


(** An item earlier than all the others goes up to the root, and no
    comparison fails on the way. *)
Lemma _siftdown_to_root (fuel : nat) (h : list item) (pos : nat) (x : item) :
  (pos < length h)%nat -> (pos < fuel)%nat -> h !! pos = Some x ->
  (forall (i : nat) (y : item), i <> pos -> h !! i = Some y -> fltb x.1 y.1 = true) ->
  exists h' : list item,
    _siftdown fuel h 0 pos = (h', Ok tt) /\ h' !! 0%nat = Some x.
Proof.
  revert h pos. induction fuel as [|fuel IH]; intros h pos Hpos Hfuel Hx Hall; [lia|].
  simpl. case_bool_decide.
  - pose proof (div2_bounds (pos - 1)) as Hd.
    destruct (lookup_lt_is_Some_2 h (Nat.div2 (pos - 1)) ltac:(lia)) as [P HP].
    rewrite Hx, HP.
    assert (Hlt : fltb x.1 P.1 = true) by (apply (Hall (Nat.div2 (pos - 1))); [lia|done]).
    unfold item_lt. rewrite (fltb_feqb _ _ Hlt), Hlt.
    apply IH.
    + rewrite swap_length. lia.
    + lia.
    + rewrite swap_lookup by lia. destruct (decide (Nat.div2 (pos - 1) = pos)); [lia|].
      by rewrite decide_True.
    + intros i y Hi. rewrite swap_lookup by lia.
      destruct (decide (i = pos)) as [->|Hip].
      * intros Hy. rewrite HP in Hy. by injection Hy as <-.
      * rewrite decide_False by done. intros Hy. by apply (Hall i).
  - exists h. split; [done|]. by replace 0%nat with pos by lia.
Qed.

End HeapOrder.

Section QueueFacts.

(** What [_sched_add] does to the list of the queue is what [heappush]
    does, and it returns exactly when [heappush] does. *)
Lemma _sched_add_heappush (secs : float) (task : Task) (c : SystemClock) :
  queue (_task_queue (fst (_sched_add secs task c)))
  = fst (heappush (queue (_task_queue c)) (secs, task))
  /\ (snd (_sched_add secs task c) = Ok tt
      <-> snd (heappush (queue (_task_queue c)) (secs, task)) = Ok tt).
Proof.
  unfold _sched_add.
  pose proof (put_perm (_task_queue c) (secs, task)) as Hp.
  unfold put in *.
  destruct (heappush (queue (_task_queue c)) (secs, task)) as [h [[]|e]];
    simpl in *; [|done].
  unfold head_time at 2. simpl.
  destruct h as [|[t0 ?] h]; simpl.
  - by apply Permutation_nil_cons in Hp.
  - by destruct (negb (feqb t0 _)).
Qed.

(** The number of notifications that [_sched_add] adds when it returns:
    one when the time at the head changed, none otherwise. *)
Lemma _sched_add_notified (secs : float) (task : Task) (c c' : SystemClock) (t' : float) :
  _sched_add secs task c = (c', Ok tt) ->
  head_time c' = Some t' ->
  notified c'
  = if feqb t' (default minus_1e10 (head_time c)) then notified c
    else S (notified c).
Proof.
  unfold _sched_add.
  destruct (put (_task_queue c) (secs, task)) as [q [[]|e]]; [|done].
  destruct (task_done q) as [q' [[]|e]]; [|done].
  destruct (head_time (set_next_beat (set_queue c q') task (Some secs)))
    as [t|] eqn:Hh; [|done].
  assert (Hd : default minus_1e10 (head_time c)
               = match head_time c with Some t0 => t0 | None => minus_1e10 end)
    by (by destruct (head_time c)).
  rewrite Hd.
  destruct (feqb t _) eqn:He; simpl; intros [= <-]; unfold head_time in *;
    simpl in *; rewrite Hh; intros [= <-]; by rewrite He.
Qed.

End QueueFacts.

Section ClockExtras.

(** X1. [_sched_add] always leaves the new entry in the queue next to all
    the old ones, also when it raises; and what it raises is the
    [TypeError] of a comparison of two tasks, nothing else. *)
Theorem sched_add_entry_stays_even_on_error (secs : float) (task : Task) (c : SystemClock) :
  queue (_task_queue (fst (_sched_add secs task c)))
  ≡ₚ (secs, task) :: queue (_task_queue c)
  /\ (forall e : exn, snd (_sched_add secs task c) = Raise e -> e = TypeError).
Proof. split; [apply _sched_add_perm|]. intros e. apply _sched_add_raises. Qed.

(** X2. On an empty queue [sched_abs] at a time other than [math.inf]
    always returns; the queue then holds that one entry, and the scheduler
    thread is notified unless the time is [-1e10], the value that the code
    takes for the head of an empty queue. *)
Theorem sched_abs_on_empty_queue (time : float) (task : Task) (c : SystemClock) :
  queue (_task_queue c) = [] -> feqb time inf = false ->
  sched_abs time task c
  = (let c1 := set_next_beat
                 (set_queue c {| queue := [(time, task)];
                                 unfinished_tasks := unfinished_tasks (_task_queue c) |})
                 task (Some time) in
     if feqb time minus_1e10 then c1 else notify_all c1, Ok tt).
Proof.
  intros Hq Hinf. unfold sched_abs. rewrite Hinf.
  unfold _sched_add, put, head_time. rewrite Hq, heappush_nil.
  cbn -[feqb minus_1e10].
  by destruct (feqb time minus_1e10).
Qed.

(** X3. On a queue in heap order and without NaN, an entry that [get]
    returns is not later than any entry left, the entries left are the
    others, and they are in heap order again. *)
Theorem get_returns_earliest (q q' : PriorityQueue) (x : item) :
  heap_ordered (queue q) -> no_nan (queue q) ->
  get q = Some (q', Ok x) ->
  (forall y : item, y ∈ queue q' -> time_le x y)
  /\ x :: queue q' ≡ₚ queue q
  /\ heap_ordered (queue q') /\ no_nan (queue q').
Proof.
  intros Hh Hn Hget.
  pose proof (get_spec q q' (Ok x) Hget) as Hperm. simpl in Hperm.
  unfold get in Hget. destruct (queue q) as [|x0 l] eqn:Hq; [done|].
  destruct (heappop (x0 :: l)) as [h r] eqn:Hpop.
  injection Hget as <- ->. simpl in *.
  destruct (heappop_ordered _ _ _ Hh Hn Hpop) as [Hord Hroot].
  assert (Hn' : no_nan (x :: h)) by (by eapply no_nan_perm).
  split; [|split; [done|split; [done|]]].
  - intros y Hy.
    assert (Hy' : y ∈ x0 :: l) by (rewrite <- Hperm; by apply elem_of_cons; right).
    apply list_elem_of_lookup in Hy' as [i Hi].
    by apply (heap_root_min (x0 :: l) x Hh Hn Hroot i y).
  - by apply Forall_cons in Hn' as [_ ?].
Qed.

(** X4. [_sched_add] keeps the heap order: when it returns on a queue in
    heap order, the queue with the new entry is in heap order. *)
Theorem sched_add_keeps_heap_order (secs : float) (task : Task) (c c' : SystemClock) :
  heap_ordered (queue (_task_queue c)) -> no_nan (queue (_task_queue c)) ->
  secs <> S754_nan ->
  _sched_add secs task c = (c', Ok tt) ->
  heap_ordered (queue (_task_queue c')) /\ no_nan (queue (_task_queue c')).
Proof.
  intros Hh Hn Hs Hadd.
  destruct (_sched_add_heappush secs task c) as [Hq Hr].
  pose proof (_sched_add_perm secs task c) as Hp.
  rewrite Hadd in Hq, Hr, Hp. simpl in *.
  destruct (heappush (queue (_task_queue c)) (secs, task)) as [h r] eqn:Hpush.
  simpl in *. subst h. assert (r = Ok tt) as -> by (by apply Hr).
  split.
  - by apply (heappush_ordered _ _ (secs, task) Hh Hn Hs Hpush).
  - eapply no_nan_perm; [exact Hp|]. by apply Forall_cons.
Qed.


(** X6. Scheduling at a time earlier than the head of a queue in heap
    order always returns: the new entry becomes the head and the scheduler
    thread is notified. *)
Theorem sched_add_earlier_becomes_head
    (secs t0 : float) (task : Task) (c : SystemClock) :
  heap_ordered (queue (_task_queue c)) -> no_nan (queue (_task_queue c)) ->
  head_time c = Some t0 -> fltb secs t0 = true ->
  exists c' : SystemClock,
    _sched_add secs task c = (c', Ok tt)
    /\ head_time c' = Some secs /\ notified c' = S (notified c).
Proof.
  intros Hh Hn Hhead Hlt.
  destruct (queue (_task_queue c)) as [|[t k] l] eqn:Hqc.
  { unfold head_time in Hhead. by rewrite Hqc in Hhead. }
  assert (t = t0) as -> by (unfold head_time in Hhead; rewrite Hqc in Hhead; congruence).
  assert (Hall : forall (i : nat) (y : item),
            ((t0, k) :: l) !! i = Some y -> fltb secs y.1 = true).
  { intros i y Hy.
    pose proof (heap_root_min _ (t0, k) Hh Hn eq_refl i y Hy) as Hle.
    destruct (fltb secs y.1) eqn:E; [done|].
    pose proof (fltb_negtrans t0 y.1 secs (no_nan_lookup _ _ _ Hn Hy) Hle E).
    congruence. }
  destruct (_siftdown_to_root (S (length ((t0, k) :: l)))
              (((t0, k) :: l) ++ [(secs, task)]) (length ((t0, k) :: l))
              (secs, task)) as (h' & Hsd & Hroot).
  { rewrite length_app. simpl. lia. }
  { lia. }
  { by apply list_lookup_middle. }
  { intros i y Hi Hy. apply (Hall i y).
    pose proof (lookup_lt_Some _ _ _ Hy) as Hlen. rewrite length_app in Hlen.
    cbn [length] in Hlen, Hi.
    assert (Hi' : (i < length ((t0, k) :: l))%nat) by (cbn [length]; lia).
    by rewrite (lookup_app_l _ _ _ Hi') in Hy. }
  destruct (_sched_add secs task c) as [c' r] eqn:Hadd.
  destruct (_sched_add_heappush secs task c) as [Hq Hr].
  assert (Hpush : heappush (queue (_task_queue c)) (secs, task) = (h', Ok tt))
    by (rewrite Hqc; exact Hsd).
  rewrite Hadd, Hpush in Hq, Hr.
  simpl in Hq, Hr.
  assert (r = Ok tt) as -> by (by apply Hr).
  assert (Hh' : head_time c' = Some secs).
  { unfold head_time. rewrite Hq. destruct h' as [|[t1 k1] h']; [done|].
    simpl in Hroot. by injection Hroot as -> ->. }
  exists c'. split; [done|]. split; [done|].
  rewrite (_sched_add_notified _ _ _ _ _ Hadd Hh'). rewrite Hhead. simpl.
  by rewrite (fltb_feqb _ _ Hlt).
Qed.

End ClockExtras.

Section NoTie.







End NoTie.

Section QueueFacts2.

(** A failing [heappop] has already taken the root out of the list. *)
Lemma heappop_raises (heap heap' : list item) (e : exn) :
  heap <> [] -> heappop heap = (heap', Raise e) ->
  e = TypeError /\ exists x : item, heap !! 0%nat = Some x /\ x :: heap' ≡ₚ heap.
Proof.
  intros Hne. unfold heappop. destruct (last heap) as [lastelt|] eqn:Hlast.
  2:{ by apply last_None in Hlast. }
  apply last_Some in Hlast as [l' ->].
  rewrite length_app. simpl.
  replace (length l' + 1 - 1)%nat with (length l') by lia.
  rewrite take_app_length.
  destruct l' as [|returnitem rest]; [done|].
  pose proof (_siftup_spec (lastelt :: rest) ltac:(done)) as H.
  destruct (_siftup (lastelt :: rest) 0) as [h [[]|e']]; [done|].
  destruct H as [Hp ->]. intros [= <- <-]. split; [done|].
  exists returnitem. split; [done|].
  rewrite Hp. simpl. rewrite <- Permutation_cons_append. done.
Qed.

Lemma clear_loop_spec (fuel : nat) (q : PriorityQueue) :
  (length (queue q) < fuel)%nat ->
  match clear_loop fuel q with
  | (q', Ok _) => q' = {| queue := []; unfinished_tasks := unfinished_tasks q |}
  | (q', Raise e) =>
      e = TypeError /\ (length (queue q') < length (queue q))%nat
      /\ unfinished_tasks q' = unfinished_tasks q
  end.
Proof.
  revert q. induction fuel as [|fuel IH]; intros q Hlen; [lia|].
  simpl. unfold empty, get.
  destruct q as [[|x0 l] n] eqn:Hq; simpl in *; [done|].
  pose proof (heappop_spec (x0 :: l)) as Hs.
  pose proof (heappop_raises (x0 :: l)) as Hr.
  destruct (heappop (x0 :: l)) as [h [x|e]].
  - pose proof (Permutation_length Hs) as Hl. simpl in Hl.
    specialize (IH {| queue := h; unfinished_tasks := n |} ltac:(simpl; lia)).
    destruct (clear_loop fuel _) as [q' [[]|e]]; simpl in *; [done|].
    destruct IH as (-> & IH & ->). split; [done|]. split; [lia|done].
  - destruct (Hr h e ltac:(done) eq_refl) as (-> & x & _ & Hp).
    pose proof (Permutation_length Hp) as Hl. simpl in *. split; [done|].
    split; [lia|done].
Qed.


End QueueFacts2.

Section ClockExtras2.

(** X7. A [get] that fails has failed on comparing two tasks, and the
    entry at the head of the queue is lost: the queue is left with the other
    entries only. *)
Theorem get_failure_loses_head (q q' : PriorityQueue) (e : exn) :
  get q = Some (q', Raise e) ->
  e = TypeError
  /\ exists x : item, queue q !! 0%nat = Some x /\ x :: queue q' ≡ₚ queue q.
Proof.
  unfold get. destruct (queue q) as [|x0 l] eqn:Hq; [done|].
  destruct (heappop (x0 :: l)) as [h r] eqn:Hpop. intros [= <- ->]. simpl.
  by apply (heappop_raises (x0 :: l) h e).
Qed.

(** X8. [clear] either returns, with the queue empty and the waiting
    threads notified once, or raises the [TypeError] of a comparison of two
    tasks; then nobody is notified and the queue has lost entries. Nothing
    else of the clock changes. *)
Theorem clear_empties_or_raises (c : SystemClock) :
  match clear c with
  | (c', Ok _) =>
      c' = notify_all (set_queue c {| queue := [];
                                      unfinished_tasks := unfinished_tasks (_task_queue c) |})
  | (c', Raise e) =>
      e = TypeError /\ notified c' = notified c
      /\ (length (queue (_task_queue c')) < length (queue (_task_queue c)))%nat
  end.
Proof.
  unfold clear.
  pose proof (clear_loop_spec (S (length (queue (_task_queue c)))) (_task_queue c)
                ltac:(lia)) as H.
  destruct (clear_loop _ _) as [q [[]|e]].
  - by rewrite H.
  - destruct H as (-> & Hl & _). done.
Qed.





End ClockExtras2.

Section ConversionFacts2.

Lemma bounded_53 (m : positive) (e : Z) :
  Z.log2 (Zpos m) = 52 -> -1074 <= e <= 971 -> bounded prec emax m e = true.
Proof.
  intros Hl He. unfold bounded, canonical_mantissa.
  rewrite digits2_log2, fexp64, Hl. apply andb_true_intro. split.
  - apply Z.eqb_eq. lia.
  - apply Z.leb_le. change (emax - prec) with 971. lia.
Qed.

(** [float(z) * _OSC_TO_SECONDS] converted back: one unit is lost. *)
Lemma osc_back (c : SystemClock) (s : bool) (P : positive) :
  Zpos P < 2 ^ 53 ->
  bind (bind (float_of_int (if s then Zneg P else Zpos P))
          (fun x => Ok (fmul x _OSC_TO_SECONDS)))
       (elapsed_time_to_osc c)
  = Ok ((if s then - (Zpos P - 1) else Zpos P - 1) + _elapsed_osc_offset c).
Proof.
  intros HP. rewrite float_of_int_exact by done. unfold bind.
  set (L := Z.log2 (Zpos P)).
  assert (Hl : 0 <= L < 53).
  { split; [apply Z.log2_nonneg|]. apply Z.log2_lt_pow2; lia. }
  destruct (Z.log2_spec (Zpos P) ltac:(lia)) as [H1 H2]. fold L in H1, H2.
  assert (Hj : 0 < 2 ^ (52 - L)) by (apply Z.pow_pos_nonneg; lia).
  assert (E52 : 2 ^ 52 = 2 ^ L * 2 ^ (52 - L)).
  { rewrite <- Z.pow_add_r by lia. f_equal. lia. }
  assert (E53 : 2 ^ 53 = 2 ^ Z.succ L * 2 ^ (52 - L)).
  { rewrite <- Z.pow_add_r by lia. f_equal. lia. }
  set (M := Zpos P * 2 ^ (52 - L)).
  assert (HM : 2 ^ 52 <= M < 2 ^ 53) by (subst M; nia).
  rewrite mul_OSC_TO_SECONDS; [|rewrite Z2Pos.id by lia; exact HM|lia].
  rewrite Z2Pos.id by lia.
  destruct (Z.eqb_spec M (2 ^ 52)) as [Heq|Hne].
  - assert (HPL : Zpos P = 2 ^ L) by (subst M; nia).
    rewrite elapsed_time_to_osc_finite; [| |lia].
    2:{ apply bounded_53; [done|lia]. }
    do 2 f_equal.
    assert (Hk : 0 < 2 ^ (53 - L)) by (apply Z.pow_pos_nonneg; lia).
    assert (E : 2 ^ 53 = 2 ^ L * 2 ^ (53 - L)).
    { rewrite <- Z.pow_add_r by lia. f_equal. lia. }
    replace (-32 - (L - 52 - 33)) with (53 - L) by lia.
    assert (D : Zpos 9007199254740991 / 2 ^ (53 - L) = Zpos P - 1).
    { symmetry. apply Z.div_unique with (2 ^ (53 - L) - 1); [lia|].
      change (Zpos 9007199254740991) with (2 ^ 53 - 1). rewrite HPL. lia. }
    rewrite D. by destruct s.
  - assert (Hl' : Z.log2 (M - 1) = 52) by (apply Z.log2_unique; lia).
    rewrite elapsed_time_to_osc_finite; [| |lia].
    2:{ apply bounded_53; [rewrite Z2Pos.id by lia; done|lia]. }
    do 2 f_equal. rewrite Z2Pos.id by lia.
    replace (-32 - (L - 52 - 32)) with (52 - L) by lia.
    assert (D : (M - 1) / 2 ^ (52 - L) = Zpos P - 1).
    { symmetry. apply Z.div_unique with (2 ^ (52 - L) - 1); [lia|]. subst M. lia. }
    rewrite D. by destruct s.
Qed.

End ConversionFacts2.

Section ConversionExtras.

(** X13. An OSC time stamp converted to elapsed seconds and back comes
    back one unit nearer to the offset of the clock (and unchanged only
    when it is the offset itself), for a distance to the offset below
    2^53 units. *)
Theorem osc_to_elapsed_and_back_loses_one_unit (c : SystemClock) (n : Z) :
  Z.abs (n - _elapsed_osc_offset c) < 2 ^ 53 ->
  bind (osc_to_elapsed_time c n) (elapsed_time_to_osc c)
  = Ok (n - Z.sgn (n - _elapsed_osc_offset c)).
Proof.
  intros Hn. unfold osc_to_elapsed_time.
  destruct (n - _elapsed_osc_offset c) as [|P|P] eqn:Hd.
  - cbn. f_equal. lia.
  - rewrite (osc_back c false P) by lia. f_equal. cbn [Z.sgn]. lia.
  - rewrite (osc_back c true P) by lia. f_equal. cbn [Z.sgn]. lia.
Qed.

End ConversionExtras.

Section Checkers.


Lemma heap_orderedb_true (h : list item) : heap_orderedb h = true -> heap_ordered h.
Proof.
  unfold heap_orderedb. intros H i x p Hi Hx Hp.
  rewrite forallb_forall in H.
  assert (Hin : In i (seq 1 (length h - 1))).
  { apply in_seq. pose proof (lookup_lt_Some _ _ _ Hx). lia. }
  apply H in Hin. cbv beta in Hin. unfold item in *. rewrite Hx, Hp in Hin.
  by apply negb_true_iff.
Qed.

End Checkers.

Section ClockWitnesses.

Import Examples QueueExamples.

Lemma sched_abs_on_empty_queue_witness :
  queue (_task_queue clock0) = [] /\ feqb one inf = false
  /\ sched_abs one r clock0 = (clock1, Ok tt).
Proof.
  split; [reflexivity|]. split; [reflexivity|].
  exact (sched_abs_on_empty_queue one r clock0 eq_refl eq_refl).
Defined.

Lemma get_returns_earliest_witness :
  get (_task_queue clock2)
  = Some ({| queue := [(one, r)]; unfinished_tasks := 0 |}, Ok (half, f))
  /\ (forall y : item, y ∈ [(one, r)] -> time_le (half, f) y)
  /\ (half, f) :: [(one, r)] ≡ₚ queue (_task_queue clock2)
  /\ heap_ordered [(one, r)] /\ no_nan [(one, r)].
Proof.
  split; [reflexivity|].
  apply (get_returns_earliest (_task_queue clock2)
           {| queue := [(one, r)]; unfinished_tasks := 0 |} (half, f)).
  - apply heap_orderedb_true. reflexivity.
  - repeat constructor; discriminate.
  - reflexivity.
Defined.

Lemma sched_add_keeps_heap_order_witness :
  _sched_add half f clock1 = (clock2, Ok tt)
  /\ heap_ordered (queue (_task_queue clock2)) /\ no_nan (queue (_task_queue clock2)).
Proof.
  split; [reflexivity|].
  apply (sched_add_keeps_heap_order half f clock1 clock2).
  - apply heap_orderedb_true. reflexivity.
  - repeat constructor; discriminate.
  - discriminate.
  - reflexivity.
Defined.


Lemma sched_add_earlier_becomes_head_witness :
  head_time clock1 = Some one /\ fltb half one = true
  /\ exists c' : SystemClock,
       _sched_add half f clock1 = (c', Ok tt)
       /\ head_time c' = Some half /\ notified c' = S (notified clock1).
Proof.
  split; [reflexivity|]. split; [reflexivity|].
  apply (sched_add_earlier_becomes_head half one f clock1).
  - apply heap_orderedb_true. reflexivity.
  - repeat constructor; discriminate.
  - reflexivity.
  - reflexivity.
Defined.

Lemma get_failure_loses_head_witness :
  queue tied = [(half, f); (one, g); (one, f)]
  /\ get tied
     = Some ({| queue := [(one, g); (one, f)]; unfinished_tasks := 0 |}, Raise TypeError)
  /\ exists x : item, queue tied !! 0%nat = Some x
       /\ x :: [(one, g); (one, f)] ≡ₚ queue tied.
Proof.
  split; [reflexivity|]. split; [reflexivity|].
  exact (proj2 (get_failure_loses_head tied
                  {| queue := [(one, g); (one, f)]; unfinished_tasks := 0 |}
                  TypeError eq_refl)).
Defined.





Lemma osc_to_elapsed_and_back_witness :
  Z.abs (4294967296 - _elapsed_osc_offset clock0) < 2 ^ 53
  /\ bind (osc_to_elapsed_time clock0 4294967296) (elapsed_time_to_osc clock0)
     = Ok 4294967295.
Proof.
  split; [reflexivity|].
  exact (osc_to_elapsed_and_back_loses_one_unit clock0 4294967296 eq_refl).
Defined.

End ClockWitnesses.

Section LoopFacts.

Lemma float_add_val_raises (x : float) (v : pyval) (e : exn) :
  float_add_val x v = Raise e -> is_Exception e = true.
Proof.
  destruct v as [|b|z|d|str|id]; simpl; try done; try (by intros [= <-]).
  unfold bind, float_of_int.
  destruct (binary_normalize prec emax z 0 false); try done. by intros [= <-].
Qed.

End LoopFacts.

Section LoopExtras.

Variable World : Type.
Variable call_task : Task -> World -> World * result pyval.

(** X14. What can end the scheduler thread from within an iteration of
    its loop: [get] failing on a tie of two tasks, or the called task
    raising something that is no [Exception]. Everything else that the
    task or the re-scheduling raises is handled in the iteration. *)
Theorem loop_dies_only_on_get_or_base_exception
    (c c' : SystemClock) (w w' : World) (e : exn) :
  perform_one World call_task c w = (c', w', Raise e) ->
  (e = TypeError /\ exists q, get (_task_queue c) = Some (q, Raise e))
  \/ (is_Exception e = false
      /\ exists q sched_time task,
           get (_task_queue c) = Some (q, Ok (sched_time, task))
           /\ call_task task w = (w', Raise e)).
Proof.
  unfold perform_one.
  destruct (get (_task_queue c)) as [[q [[sched_time task]|e0]]|] eqn:Hget; [| |done].
  - intros H. right.
    set (c0 := set_next_beat (set_queue c q) task None) in *.
    unfold execute, resume in H.
    destruct (call_task task w) as [w1 [delta|e1]] eqn:Hcall.
    + exfalso. destruct (is_number delta).
      * destruct (float_add_val sched_time delta) as [time|e2] eqn:Hadd.
        -- pose proof (_sched_add_raises time task c0) as Hr.
           destruct (_sched_add time task c0) as [c1 [[]|e3]]; [done|].
           rewrite (Hr e3 eq_refl) in H. done.
        -- pose proof (float_add_val_raises _ _ _ Hadd) as He2.
           destruct e2; simpl in *; try done. by case_bool_decide.
      * done.
    + assert (Hex : is_Exception e1 = false /\ e1 = e /\ w1 = w').
      { destruct e1; simpl in H; try done; try case_bool_decide; try done;
          by injection H as <- <-. }
      destruct Hex as (Hex & <- & <-). split; [done|]. by exists q, sched_time, task.
  - intros [= <- <- <-]. left.
    pose proof (get_spec _ _ _ Hget) as ->. split; [done|]. by exists q.
Qed.

End LoopExtras.

Section LoopWitnesses.

Import Examples QueueExamples.

Lemma loop_dies_witness :
  perform_one unit exits clock1 tt
  = ((perform_one unit exits clock1 tt).1.1, tt, Raise SystemExit)
  /\ ((SystemExit = TypeError
       /\ exists q, get (_task_queue clock1) = Some (q, Raise SystemExit))
      \/ (is_Exception SystemExit = false
          /\ exists q sched_time task,
               get (_task_queue clock1) = Some (q, Ok (sched_time, task))
               /\ exits task tt = (tt, Raise SystemExit))).
Proof.
  split; [reflexivity|].
  exact (loop_dies_only_on_get_or_base_exception unit exits clock1
           (perform_one unit exits clock1 tt).1.1 tt tt SystemExit eq_refl).
Defined.

End LoopWitnesses.

Section DispatcherFacts.

Import ResponseDefs.

Lemma wfunc_is_refl (w : wfunc) : wfunc_is w w = true.
Proof. destruct w as [[c|]| | | |]; simpl; try done; apply Nat.eqb_refl. Qed.

(** [l.remove(x)] succeeds when [x] was just appended. *)
Lemma list_remove_first_app (w : wfunc) (l : list wfunc) :
  exists l' : list wfunc,
    list_remove_first w (l ++ [w]) = Ok l' /\ length l' = length l.
Proof.
  induction l as [|y l IH]; simpl.
  - rewrite wfunc_is_refl. by eexists.
  - destruct (wfunc_is y w).
    + eexists. split; [done|]. rewrite length_app. simpl. lia.
    + destruct IH as (l' & -> & Hl). simpl. eexists. split; [done|]. simpl. lia.
Qed.

(** [wrap_func] only draws new object identities. *)
Lemma wrap_func_spec (h : nat) (p : OscFunc) (s : State) :
  proxies s !! h = Some p ->
  exists (w : wfunc) (n : nat), wrap_func h s = (set_next_oid n s, Ok w).
Proof.
  intros Hp. unfold wrap_func, proxy, mbind, fresh, ret. rewrite Hp.
  destruct (arg_template p), (src_id p), (recv_port p); simpl;
    try (by do 2 eexists).
  exists (WFunc (_func p)), (next_oid s). by destruct s.
Qed.

Lemma add_spec (d : disp_ref) (h : nat) (p : OscFunc) (s : State) :
  proxies s !! h = Some p ->
  exists (w : wfunc) (s1 : State),
    add d h s = (s1, Ok tt)
    /\ proxies s1 = proxies s
    /\ _all_func_proxies s1 = _all_func_proxies s
    /\ cmd_period s1 = cmd_period s
    /\ calls s1 = calls s
    /\ wrapped_funcs (get_disp d s1) = <[h := w]> (wrapped_funcs (get_disp d s))
    /\ active (get_disp d s1)
       = <[path p := default [] (active (get_disp d s) !! path p) ++ [w]]>
           (active (get_disp d s))
    /\ registered (get_disp d s1) = true.
Proof.
  intros Hp. unfold add, NotificationCenter_register.
  unfold mbind at 1. unfold modify at 1.
  set (s0 := set_notifications _ s).
  destruct (wrap_func_spec h p s0 Hp) as (w & n & Hw).
  unfold mbind at 1. rewrite Hw.
  exists w. subst s0.
  unfold get_keys_for_func_proxy, proxy, gets, modify, ret, mbind.
  destruct d; simpl; rewrite Hp; simpl.
  - destruct (registered (exact s)) eqn:Hr; simpl;
      (eexists; split; [reflexivity|]; simpl; repeat split; try done;
       by destruct (active (exact s) !! path p)).
  - destruct (registered (matching_d s)) eqn:Hr; simpl;
      (eexists; split; [reflexivity|]; simpl; repeat split; try done;
       by destruct (active (matching_d s) !! path p)).
Qed.

(** Whatever [remove] does, it leaves the responder objects, the set of
    all responders and the record of calls alone. *)
Lemma remove_frame (d : disp_ref) (h : nat) (s : State) :
  proxies (fst (remove d h s)) = proxies s
  /\ _all_func_proxies (fst (remove d h s)) = _all_func_proxies s
  /\ cmd_period (fst (remove d h s)) = cmd_period s.
Proof.
  unfold remove, NotificationCenter_unregister,
    get_keys_for_func_proxy, proxy, mbind, modify, gets, ret. simpl.
  set (s0 := set_notifications (drop_all (h, d)) s).
  assert (H0 : proxies s0 = proxies s /\ _all_func_proxies s0 = _all_func_proxies s
               /\ cmd_period s0 = cmd_period s) by done.
  clearbody s0.
  destruct (proxies s !! h) as [p|]; simpl; [|done].
  destruct (wrapped_funcs (get_disp d s0) !! h) as [w|]; simpl; [|done].
  unfold mbind, ret.
  destruct (active (get_disp d s0) !! path p) as [l|]; simpl; [|done].
  destruct (list_remove_first w l) as [l'|e]; simpl; [|done].
  destruct (size _ =? 0)%nat; [|done].
  unfold unregister, remove_osc_recv_func, mbind, modify. by simpl.
Qed.

(** When the wrapped function of [h] is in the list of its path, [remove]
    returns, having taken it out of the list and forgotten it. *)
Lemma remove_ok (d : disp_ref) (h : nat) (p : OscFunc) (s : State)
    (w : wfunc) (l l' : list wfunc) :
  proxies s !! h = Some p ->
  wrapped_funcs (get_disp d s) !! h = Some w ->
  active (get_disp d s) !! path p = Some l ->
  list_remove_first w l = Ok l' ->
  exists s1 : State,
    remove d h s = (s1, Ok tt)
    /\ wrapped_funcs (get_disp d s1) = delete h (wrapped_funcs (get_disp d s))
    /\ active (get_disp d s1) = <[path p := l']> (active (get_disp d s)).
Proof.
  intros Hp Hw Hl Hrm.
  unfold remove, NotificationCenter_unregister,
    get_keys_for_func_proxy, proxy, mbind, modify, gets, ret. simpl.
  set (s0 := set_notifications (drop_all (h, d)) s).
  assert (H0 : get_disp d s0 = get_disp d s) by (by destruct d).
  clearbody s0.
  rewrite Hp. simpl. rewrite H0, Hw. simpl. unfold mbind, ret.
  rewrite H0, Hl, Hrm. simpl. rewrite !get_set_disp. simpl.
  assert (Hne : (size (<[path p := l']> (active (get_disp d s0))) =? 0)%nat = false).
  { apply Nat.eqb_neq. intros Hz. apply map_size_empty_inv in Hz.
    by apply insert_non_empty in Hz. }
  rewrite Hne. eexists. split; [reflexivity|].
  rewrite !get_set_disp. simpl. by rewrite H0.
Qed.

(** [remove] never detaches the dispatcher from the message source: when
    its loop has returned, the key of the responder is in [active], whose
    length is then not 0. *)
Lemma remove_stays_registered (d : disp_ref) (h : nat) (s : State) :
  registered (get_disp d (fst (remove d h s))) = registered (get_disp d s)
  /\ osc_recv_funcs (fst (remove d h s)) = osc_recv_funcs s.
Proof.
  unfold remove, NotificationCenter_unregister,
    get_keys_for_func_proxy, proxy, mbind, modify, gets, ret. simpl.
  set (s0 := set_notifications (drop_all (h, d)) s).
  assert (H0 : get_disp d s0 = get_disp d s /\ osc_recv_funcs s0 = osc_recv_funcs s)
    by (by destruct d).
  destruct H0 as [H0 H1]. clearbody s0. rewrite <- H0, <- H1.
  clear H0 H1.
  destruct (proxies s !! h) as [p|]; simpl; [|done].
  destruct (wrapped_funcs (get_disp d s0) !! h) as [w|]; simpl; [|done].
  unfold mbind, ret.
  destruct (active (get_disp d s0) !! path p) as [l|] eqn:Hl; simpl; [|done].
  destruct (list_remove_first w l) as [l'|e]; simpl; [|done].
  rewrite !get_set_disp. simpl.
  assert (Hne : (size (<[path p := l']> (active (get_disp d s0))) =? 0)%nat = false).
  { apply Nat.eqb_neq. intros Hz. apply map_size_empty_inv in Hz.
    by apply insert_non_empty in Hz. }
  rewrite Hne. simpl. rewrite !get_set_disp. simpl. by destruct d.
Qed.

End DispatcherFacts.

Section ResponderLifeCycleFacts.

Import ResponseDefs.

Lemma enable_spec (h : nat) (p : OscFunc) (s : State) :
  proxies s !! h = Some p -> enabled p = false ->
  exists (w : wfunc) (s1 : State),
    enable h s = (s1, Ok tt)
    /\ proxies s1 = alter (set_enabled true) h (proxies s)
    /\ _all_func_proxies s1 = {[h]} ∪ _all_func_proxies s
    /\ cmd_period s1 = (if _permanent p then cmd_period s else add_once h (cmd_period s))
    /\ wrapped_funcs (get_disp (dispatcher p) s1)
       = <[h := w]> (wrapped_funcs (get_disp (dispatcher p) s))
    /\ active (get_disp (dispatcher p) s1)
       = <[path p := default [] (active (get_disp (dispatcher p) s) !! path p) ++ [w]]>
           (active (get_disp (dispatcher p) s))
    /\ registered (get_disp (dispatcher p) s1) = true.
Proof.
  intros Hp He. unfold enable. unfold mbind at 1. unfold proxy at 1.
  rewrite Hp, He. cbn [negb].
  set (s0 := if _permanent p then s else set_cmd_period (add_once h) s).
  assert (H0 : (if negb (_permanent p) then CmdPeriod_add h else ret tt) s = (s0, Ok tt)).
  { subst s0. by destruct (_permanent p). }
  unfold mbind at 1. rewrite H0.
  assert (Hp0 : proxies s0 !! h = Some p) by (subst s0; by destruct (_permanent p)).
  destruct (add_spec (dispatcher p) h p s0 Hp0)
    as (w & s1 & Hadd & Hpr & Hall & Hcp & _ & Hwf & Hact & Hreg).
  unfold mbind at 1. rewrite Hadd. unfold mbind, modify. simpl.
  exists w. eexists. split; [reflexivity|]. simpl.
  assert (Hd : get_disp (dispatcher p) s0 = get_disp (dispatcher p) s)
    by (subst s0; destruct (_permanent p); by destruct (dispatcher p)).
  rewrite Hd in Hwf, Hact.
  assert (Hg : forall s' f g,
            get_disp (dispatcher p) (set_all f (set_proxies g s'))
            = get_disp (dispatcher p) s') by (intros; by destruct (dispatcher p)).
  rewrite Hg, Hpr, Hall, Hcp.
  repeat split; try done; subst s0; by destruct (_permanent p).
Qed.

Lemma disable_frame (h : nat) (p : OscFunc) (s s1 : State) :
  proxies s !! h = Some p -> disable h s = (s1, Ok tt) ->
  proxies s1 = alter (set_enabled false) h (proxies s)
  /\ _all_func_proxies s1 = _all_func_proxies s.
Proof.
  intros Hp. unfold disable. unfold mbind at 1. unfold proxy at 1. rewrite Hp.
  set (s0 := if _permanent p then s else set_cmd_period (drop_all h) s).
  assert (H0 : (if negb (_permanent p) then CmdPeriod_remove h else ret tt) s = (s0, Ok tt)).
  { subst s0. by destruct (_permanent p). }
  unfold mbind at 1. rewrite H0. unfold mbind at 1.
  destruct (remove_frame (dispatcher p) h s0) as (Hpr & Hall & _).
  destruct (remove (dispatcher p) h s0) as [s2 [[]|e]]; [|done].
  unfold modify. intros [= <-]. simpl in *. rewrite Hpr, Hall.
  subst s0. by destruct (_permanent p).
Qed.

End ResponderLifeCycleFacts.

Section ResponderExtras.

Import ResponseDefs.

(** X15. [remove] never detaches the dispatcher from the message source:
    whatever it does and however it ends, [registered] and the list of
    receive functions are what they were. When its loop has returned the
    key of the responder is in [active], so the test [len(self.active) == 0]
    fails. *)
Theorem remove_never_unregisters (d : disp_ref) (h : nat) (s : State) :
  registered (get_disp d (fst (remove d h s))) = registered (get_disp d s)
  /\ osc_recv_funcs (fst (remove d h s)) = osc_recv_funcs s.
Proof. apply remove_stays_registered. Qed.

(** X16. [enable] on a responder object always returns; afterwards the
    responder is enabled and a second [enable] changes nothing. When it
    was disabled before, it is now in the set of all responders, its
    wrapped function is the last of the list of its path, and the
    dispatcher is registered. *)
Theorem enable_returns_and_is_idempotent (h : nat) (p : OscFunc) (s : State) :
  proxies s !! h = Some p ->
  exists s1 : State,
    enable h s = (s1, Ok tt)
    /\ enabled <$> proxies s1 !! h = Some true
    /\ enable h s1 = (s1, Ok tt)
    /\ (enabled p = false ->
        h ∈ _all_func_proxies s1
        /\ registered (get_disp (dispatcher p) s1) = true
        /\ exists w : wfunc,
             wrapped_funcs (get_disp (dispatcher p) s1) !! h = Some w
             /\ active (get_disp (dispatcher p) s1) !! path p
                = Some (default [] (active (get_disp (dispatcher p) s) !! path p)
                        ++ [w])).
Proof.
  intros Hp. destruct (enabled p) eqn:He.
  - exists s. rewrite (enable_enabled_noop h p s Hp He).
    split; [done|]. split; [by rewrite Hp; simpl; rewrite He|]. done.
  - destruct (enable_spec h p s Hp He)
      as (w & s1 & Hen & Hpr & Hall & _ & Hwf & Hact & Hreg).
    exists s1. split; [done|].
    assert (Hp1 : proxies s1 !! h = Some (set_enabled true p)).
    { rewrite Hpr, lookup_alter_eq, Hp. done. }
    split; [by rewrite Hp1|].
    split; [by apply (enable_enabled_noop h (set_enabled true p))|].
    intros _. split.
    { rewrite Hall. apply elem_of_union. left. by apply elem_of_singleton. }
    split; [done|].
    exists w. rewrite Hwf, Hact, !lookup_insert_eq. done.
Qed.

(** X17. [disable] right after [enable] on a responder that was disabled
    returns: the responder is disabled, the dispatcher has forgotten its
    wrapped function, the list of its path is as long as before [enable]
    and the key of the path stays, and the responder is still in the set
    of all responders. *)
Theorem disable_after_enable_returns (h : nat) (p : OscFunc) (s : State) :
  proxies s !! h = Some p -> enabled p = false ->
  exists (s1 s2 : State) (l : list wfunc),
    enable h s = (s1, Ok tt)
    /\ disable h s1 = (s2, Ok tt)
    /\ enabled <$> proxies s2 !! h = Some false
    /\ h ∈ _all_func_proxies s2
    /\ wrapped_funcs (get_disp (dispatcher p) s2) !! h = None
    /\ active (get_disp (dispatcher p) s2) !! path p = Some l
    /\ length l = length (default [] (active (get_disp (dispatcher p) s) !! path p)).
Proof.
  intros Hp He.
  destruct (enable_spec h p s Hp He)
    as (w & s1 & Hen & Hpr & Hall & _ & Hwf & Hact & Hreg).
  set (l0 := default [] (active (get_disp (dispatcher p) s) !! path p)) in *.
  destruct (list_remove_first_app w l0) as (l & Hrm & Hlen).
  assert (Hp1 : proxies s1 !! h = Some (set_enabled true p)).
  { rewrite Hpr, lookup_alter_eq, Hp. done. }
  set (s0 := if _permanent p then s1 else set_cmd_period (drop_all h) s1).
  assert (H0 : (if negb (_permanent p) then CmdPeriod_remove h else ret tt) s1
               = (s0, Ok tt)).
  { subst s0. by destruct (_permanent p). }
  assert (Hd : get_disp (dispatcher p) s0 = get_disp (dispatcher p) s1)
    by (subst s0; destruct (_permanent p); by destruct (dispatcher p)).
  assert (Hp0 : proxies s0 !! h = Some (set_enabled true p))
    by (subst s0; by destruct (_permanent p)).
  destruct (remove_ok (dispatcher p) h (set_enabled true p) s0 w (l0 ++ [w]) l)
    as (s2 & Hrem & Hwf2 & Hact2); try done.
  { rewrite Hd, Hwf. apply lookup_insert_eq. }
  { rewrite Hd, Hact. apply lookup_insert_eq. }
  destruct (remove_frame (dispatcher p) h s0) as (Hpr2 & Hall2 & _).
  rewrite Hrem in Hpr2, Hall2. simpl in Hpr2, Hall2, Hwf2, Hact2.
  exists s1, (set_proxies (alter (set_enabled false) h) s2), l.
  split; [done|]. split.
  { unfold disable. unfold mbind at 1. unfold proxy at 1. rewrite Hp1. simpl.
    unfold mbind at 1. rewrite H0. unfold mbind at 1. rewrite Hrem. done. }
  assert (Hg : forall g, get_disp (dispatcher p) (set_proxies g s2)
                         = get_disp (dispatcher p) s2)
    by (intros; by destruct (dispatcher p)).
  rewrite Hg, Hwf2, Hact2, Hd. simpl. rewrite Hpr2.
  split.
  { rewrite lookup_alter_eq, Hp0. done. }
  split.
  { rewrite Hall2. subst s0.
    destruct (_permanent p); simpl; rewrite Hall; apply elem_of_union; left;
      by apply elem_of_singleton. }
  split; [apply lookup_delete_eq|]. split; [apply lookup_insert_eq|done].
Qed.

(** X18. [free] can be called again: after a [free] that returned, a
    second [free] returns and changes nothing. *)
Theorem free_twice_is_safe (h : nat) (s s1 : State) :
  free h s = (s1, Ok tt) -> free h s1 = (s1, Ok tt).
Proof.
  unfold free. unfold mbind at 1. unfold gets at 1.
  set (s0 := if bool_decide (h ∈ _all_func_proxies s)
             then set_all (fun a => a ∖ {[h]}) s else s).
  assert (H0 : (if bool_decide (h ∈ _all_func_proxies s)
                then modify (set_all (fun a => a ∖ {[h]})) else ret tt) s
               = (s0, Ok tt)).
  { subst s0. by case_bool_decide. }
  unfold mbind at 1. rewrite H0.
  assert (Hnot : h ∉ _all_func_proxies s0).
  { subst s0. case_bool_decide; simpl; [|done].
    intros [_ Hn]%elem_of_difference. apply Hn. by apply elem_of_singleton. }
  assert (Hpr : proxies s0 = proxies s) by (subst s0; by case_bool_decide).
  clearbody s0. clear H0.
  unfold mbind at 1. unfold proxy at 1.
  destruct (proxies s0 !! h) as [p|] eqn:Hp; [|done].
  assert (Hend : forall (p' : OscFunc) (s' : State),
            proxies s' !! h = Some p' -> enabled p' = false ->
            h ∉ _all_func_proxies s' ->
            (do isin <- gets (fun s => bool_decide (h ∈ _all_func_proxies s));
             (if isin then modify (set_all (fun a => a ∖ {[h]})) else ret tt) ;;
             do p <- proxy h; if enabled p then disable h else ret tt) s'
            = (s', Ok tt)).
  { intros p' s' Hp' He' Hn'. unfold mbind, gets, proxy, ret.
    rewrite bool_decide_false by done. by rewrite Hp', He'. }
  destruct (enabled p) eqn:He.
  - intros Hdis. destruct (disable_frame h p s0 s1 Hp Hdis) as [Hpr1 Hall1].
    apply (Hend (set_enabled false p)).
    + rewrite Hpr1, lookup_alter_eq, Hp. done.
    + done.
    + by rewrite Hall1.
  - intros [= <-]. by apply (Hend p).
Qed.

(** X19. The selectors of a responder all have to match, and they are
    tested from the outside in: the function that [wrap_func] builds does
    nothing for a message whose sender or receiving port differs, without
    looking at the argument template; otherwise it does what the template
    matcher does, or calls the function when there is no template. *)
Theorem wrapped_selectors_all_have_to_match
    (h : nat) (p : OscFunc) (s s' s0 : State) (w : wfunc)
    (msg : list pyval) (time : float) (sender : NetAddr) (rport : Z) :
  proxies s !! h = Some p -> wrap_func h s = (s', Ok w) ->
  value w msg time sender rport s0
  = if match src_id p with Some a => addr_matches a sender | None => true end
       && match recv_port p with Some r => Z.eqb r rport | None => true end
    then match arg_template p with
         | Some t => OSCArgsMatcher_call t (_func p) msg s0
         | None => value_callback (_func p) msg s0
         end
    else (s0, Ok tt).
Proof.
  intros Hp. unfold wrap_func, proxy, mbind, fresh, ret. rewrite Hp.
  destruct (arg_template p), (src_id p) as [a|], (recv_port p) as [r|]; simpl;
    intros [= _ <-]; simpl; try done;
    repeat match goal with
           | |- context [if ?b then _ else _] => destruct b; simpl
           end; done.
Qed.

(** X20. The loop over the argument template can fail in one way only:
    with [IndexError], and only when the template is longer than the
    arguments of the message. On a template that is not longer it ends
    with a decision. *)
Theorem template_raises_only_when_longer (template args : list pyval) :
  (forall e : exn, template_pass template args = Raise e ->
     e = IndexError /\ (length args < length template)%nat)
  /\ ((length template <= length args)%nat ->
      exists b : bool, template_pass template args = Ok b).
Proof.
  assert (H : forall e : exn, template_pass template args = Raise e ->
            e = IndexError /\ (length args < length template)%nat).
  { revert args. induction template as [|v t IH]; intros args e; [done|].
    assert (Hnone : template_pass t (tail args) = Raise e ->
              e = IndexError /\ (length args < length (v :: t))%nat).
    { intros H. destruct (IH _ _ H) as [-> Hl]. split; [done|].
      destruct args; simpl in *; lia. }
    assert (Hval : match args with
                   | [] => Raise IndexError
                   | a :: args' =>
                       if negb (py_eqb v a) then Ok false else template_pass t args'
                   end = Raise e ->
              e = IndexError /\ (length args < length (v :: t))%nat).
    { destruct args as [|a args'].
      - intros [= <-]. split; [done|]. simpl. lia.
      - destruct (negb (py_eqb v a)); [done|]. intros H.
        destruct (IH _ _ H) as [-> Hl]. split; [done|]. simpl. lia. }
    destruct v; simpl; done. }
  split; [exact H|]. intros Hlen.
  destruct (template_pass template args) as [b|e] eqn:E; [by exists b|].
  destruct (H e eq_refl) as [_ Hl]. lia.
Qed.

(** X21. A message without arguments on a responder whose template has
    a slot that is not [None]: the matcher raises [IndexError] and the
    function of the responder is not called. *)
Theorem template_on_message_without_arguments
    (template : list pyval) (f : option callback) (msg : list pyval) (s : State) :
  tail msg = [] -> Exists (fun v => v <> VNone) template ->
  OSCArgsMatcher_call template f msg s = (s, Raise IndexError).
Proof.
  intros Hmsg Hex. unfold OSCArgsMatcher_call. rewrite Hmsg.
  assert (H : template_pass template [] = Raise IndexError).
  { induction Hex as [v t Hv|v t Hex IH].
    - by destruct v.
    - destruct v; simpl; done. }
  by rewrite H.
Qed.


(** X23. Setting [permanent = True] unsubscribes an enabled responder
    from [CmdPeriod]; on a disabled responder it subscribes it, and a
    later [enable] leaves it subscribed: the responder is then enabled
    and permanent, and still freed by the reset signal. *)
Theorem permanent_on_disabled_responder_stays_subscribed
    (h : nat) (p : OscFunc) (s : State) :
  proxies s !! h = Some p ->
  let s1 := fst (set_permanent h true s) in
  let s2 := fst (enable h s1) in
  snd (set_permanent h true s) = Ok tt
  /\ (enabled p = true -> h ∉ cmd_period s1)
  /\ (enabled p = false ->
      snd (enable h s1) = Ok tt
      /\ h ∈ cmd_period s2
      /\ _permanent <$> proxies s2 !! h = Some true
      /\ enabled <$> proxies s2 !! h = Some true).
Proof.
  intros Hp s1 s2.
  set (p1 := {| path := path p; src_id := src_id p; recv_port := recv_port p;
                arg_template := arg_template p; _func := _func p;
                _permanent := true; enabled := enabled p;
                dispatcher := dispatcher p |}).
  assert (Hs1 : set_permanent h true s
                = (set_cmd_period (if enabled p then drop_all h else add_once h)
                     (set_proxies (alter (fun _ => p1) h) s), Ok tt)).
  { unfold set_permanent, mbind, modify, proxy. simpl.
    rewrite lookup_alter_eq, Hp. simpl.
    assert (Ha : alter (fun p0 =>
                     {| path := path p0; src_id := src_id p0; recv_port := recv_port p0;
                        arg_template := arg_template p0; _func := _func p0;
                        _permanent := true; enabled := enabled p0;
                        dispatcher := dispatcher p0 |}) h (proxies s)
                 = alter (fun _ => p1) h (proxies s)).
    { apply map_eq. intros i. rewrite !lookup_alter.
      destruct (decide (h = i)); [|done]. by rewrite Hp. }
    unfold set_proxies at 1 2. rewrite Ha.
    destruct (enabled p); done. }
  subst s1 s2. rewrite Hs1. cbn [fst snd]. split; [done|]. split.
  - intros ->. simpl. unfold drop_all. intros Hin%list_elem_of_filter. by destruct Hin.
  - intros He. rewrite He.
    set (s1 := set_cmd_period (add_once h) (set_proxies (alter (fun _ => p1) h) s)).
    assert (Hp1 : proxies s1 !! h = Some p1).
    { subst s1. simpl. rewrite lookup_alter_eq, Hp. done. }
    destruct (enable_spec h p1 s1 Hp1 He)
      as (w & s2 & Hen & Hpr & _ & Hcp & _).
    rewrite Hen. cbn [fst snd]. split; [done|]. split.
    + rewrite Hcp. simpl. unfold add_once. case_bool_decide; [done|].
      apply elem_of_app. right. by apply elem_of_cons; left.
    + rewrite Hpr, lookup_alter_eq, Hp1. done.
Qed.

End ResponderExtras.

Section UpdateAndTrace.

Import ResponseDefs ResponseDefsRest.



Lemma trace_invariant (flag hide : bool) (t : TraceState) :
  trace_recv_funcs t = (if _trace_running t then [_trace_func t] else []) ->
  trace_cmd_period t = _trace_running t ->
  let t' := trace flag hide t in
  trace_recv_funcs t' = (if _trace_running t' then [_trace_func t'] else [])
  /\ trace_cmd_period t' = _trace_running t'.
Proof.
  intros Hr Hc. unfold trace.
  destruct flag, (_trace_running t) eqn:Hrun; simpl; rewrite ?Hrun, ?Hr; simpl;
    try done;
    (split; [|done]; unfold drop_all; rewrite filter_cons_False; [done|];
     intros H; by apply H).
Qed.

Lemma trace_calls_invariant (calls : list (bool * bool)) :
  let t := trace_calls calls in
  trace_recv_funcs t = (if _trace_running t then [_trace_func t] else [])
  /\ trace_cmd_period t = _trace_running t.
Proof.
  unfold trace_calls.
  induction calls as [|c calls IH] using rev_ind; [done|].
  rewrite foldl_app. simpl. destruct IH as [H1 H2]. by apply trace_invariant.
Qed.

(** X25. After any sequence of calls of [trace], the trace function is
    attached to the message source exactly when [_trace_running] is set,
    it is then attached once and is the one in [_trace_func], and the
    class is subscribed to [CmdPeriod] exactly then. *)
Theorem trace_attached_iff_running (calls : list (bool * bool)) :
  let t := trace_calls calls in
  trace_recv_funcs t = (if _trace_running t then [_trace_func t] else [])
  /\ trace_cmd_period t = _trace_running t.
Proof. apply trace_calls_invariant. Qed.

(** X26. A call of [trace] while the trace is running stops it, whatever
    the arguments: [trace(True)] a second time, or [trace(True,
    hide_status=True)] to change what is shown, detaches the trace
    function and leaves nothing attached. *)
Theorem trace_while_running_stops (calls : list (bool * bool)) (flag hide : bool) :
  _trace_running (trace_calls calls) = true ->
  let t' := trace_calls (calls ++ [(flag, hide)]) in
  _trace_running t' = false /\ trace_recv_funcs t' = []
  /\ trace_cmd_period t' = false
  /\ _trace_func t' = _trace_func (trace_calls calls).
Proof.
  intros Hrun t'.
  destruct (trace_calls_invariant (calls ++ [(flag, hide)])) as [H1 H2].
  fold t' in H1, H2.
  assert (Hr : _trace_running t' = false /\ _trace_func t' = _trace_func (trace_calls calls)).
  { subst t'. unfold trace_calls. rewrite foldl_app. simpl.
    fold (trace_calls calls). unfold trace. rewrite Hrun.
    by rewrite andb_false_r. }
  destruct Hr as [Hr Hf]. rewrite Hr in H1, H2. done.
Qed.

End UpdateAndTrace.

Section ResponderWitnesses.

Import ResponseDefs ResponseDefsRest ResponderExamples SelectiveExamples.

Lemma enable_returns_witness :
  proxies one_object !! 0%nat = Some plain_0
  /\ exists s1 : State,
       enable 0%nat one_object = (s1, Ok tt)
       /\ enabled <$> proxies s1 !! 0%nat = Some true
       /\ enable 0%nat s1 = (s1, Ok tt).
Proof.
  split; [reflexivity|].
  destruct (enable_returns_and_is_idempotent 0%nat plain_0 one_object eq_refl)
    as (s1 & H1 & H2 & H3 & _).
  exists s1. split; [exact H1|]. split; [exact H2|exact H3].
Defined.

Lemma disable_after_enable_witness :
  proxies one_object !! 0%nat = Some plain_0 /\ enabled plain_0 = false
  /\ exists (s1 s2 : State),
       enable 0%nat one_object = (s1, Ok tt)
       /\ disable 0%nat s1 = (s2, Ok tt)
       /\ enabled <$> proxies s2 !! 0%nat = Some false.
Proof.
  split; [reflexivity|]. split; [reflexivity|].
  destruct (disable_after_enable_returns 0%nat plain_0 one_object eq_refl eq_refl)
    as (s1 & s2 & l & H1 & H2 & H3 & _).
  exists s1, s2. split; [exact H1|]. split; [exact H2|exact H3].
Defined.

Lemma free_twice_witness :
  free 0%nat one_responder = (freed_responder, Ok tt)
  /\ free 0%nat freed_responder = (freed_responder, Ok tt).
Proof.
  assert (H : free 0%nat one_responder = (freed_responder, Ok tt))
    by (vm_compute; reflexivity).
  split; [exact H|].
  exact (free_twice_is_safe 0%nat one_responder freed_responder H).
Defined.

Lemma wrapped_selectors_witness :
  proxies selective_object !! 0%nat = Some selective_0
  /\ wrap_func 0%nat selective_object
     = (fst (wrap_func 0%nat selective_object),
        Ok (OscFuncBothMessageMatcher 1 sender 57120
              (OSCArgsMatcher 0 [VInt 1] (Some quiet))))
  /\ value (OscFuncBothMessageMatcher 1 sender 57120
              (OSCArgsMatcher 0 [VInt 1] (Some quiet)))
       [VStr "/a"] now other_sender 57120 selective_object
     = (selective_object, Ok tt).
Proof.
  split; [reflexivity|]. split; [reflexivity|].
  exact (wrapped_selectors_all_have_to_match 0%nat selective_0 selective_object
           (fst (wrap_func 0%nat selective_object)) selective_object
           (OscFuncBothMessageMatcher 1 sender 57120
              (OSCArgsMatcher 0 [VInt 1] (Some quiet)))
           [VStr "/a"] now other_sender 57120 eq_refl eq_refl).
Defined.

Lemma template_on_message_without_arguments_witness :
  tail [VStr "/a"] = [] /\ Exists (fun v => v <> VNone) [VNone; VInt 1]
  /\ OSCArgsMatcher_call [VNone; VInt 1] (Some quiet) [VStr "/a"] one_responder
     = (one_responder, Raise IndexError).
Proof.
  assert (H : Exists (fun v => v <> VNone) [VNone; VInt 1]).
  { apply Exists_cons_tl. apply Exists_cons_hd. discriminate. }
  split; [reflexivity|]. split; [exact H|].
  exact (template_on_message_without_arguments [VNone; VInt 1] (Some quiet)
           [VStr "/a"] one_responder eq_refl H).
Defined.


Lemma permanent_on_disabled_witness :
  proxies one_object !! 0%nat = Some plain_0
  /\ snd (set_permanent 0%nat true one_object) = Ok tt
  /\ (enabled plain_0 = false ->
      snd (enable 0%nat (fst (set_permanent 0%nat true one_object))) = Ok tt
      /\ 0%nat ∈ cmd_period (fst (enable 0%nat (fst (set_permanent 0%nat true one_object))))
      /\ _permanent <$> proxies (fst (enable 0%nat
                                        (fst (set_permanent 0%nat true one_object)))) !! 0%nat
         = Some true
      /\ enabled <$> proxies (fst (enable 0%nat
                                     (fst (set_permanent 0%nat true one_object)))) !! 0%nat
         = Some true).
Proof.
  split; [reflexivity|].
  destruct (permanent_on_disabled_responder_stays_subscribed 0%nat plain_0 one_object
              eq_refl) as (H1 & _ & H3).
  split; [exact H1|exact H3].
Defined.


Lemma trace_while_running_witness :
  _trace_running (trace_calls [(true, false)]) = true
  /\ _trace_running (trace_calls ([(true, false)] ++ [(true, true)])) = false
  /\ trace_recv_funcs (trace_calls ([(true, false)] ++ [(true, true)])) = []
  /\ trace_cmd_period (trace_calls ([(true, false)] ++ [(true, true)])) = false
  /\ _trace_func (trace_calls ([(true, false)] ++ [(true, true)]))
     = _trace_func (trace_calls [(true, false)]).
Proof.
  split; [reflexivity|].
  exact (trace_while_running_stops [(true, false)] true true eq_refl).
Defined.

End ResponderWitnesses.
